(** * EVE Booster & Gas Calculator: the expansion and costing engine

    A shallow embedding of [assets/app.js]: the cached fetch layer, the
    throttled Adam4EVE queue, the typeID resolver, the blueprint expansion
    walk, the price lookup, the 7-day trend statistics and the cost summary,
    with the properties each of them has.  Where the two revisions of the
    script differ (the trend loaders) the embedding follows the later one,
    which keeps [min], [max] and [avg] next to the percent change.

    Conventions of the embedding.
    - Type IDs, quantities, run counts and depths are JavaScript numbers
      that hold integers; they are [Z].  Prices are JavaScript numbers read
      as exact rationals, [Q]; the one scenario whose value depends on
      rounding is also evaluated in binary64 ([PrimFloat]).
    - [null] where the code expects a number is [None].
    - A string property that the code only tests with [||] is a [string],
      the empty string standing for every falsy value.
    - [async] functions run to completion one after the other; their effects
      on the module-level variables are explicit state. *)

From Stdlib Require Import ZArith QArith Qround Qminmax String Ascii List.
From Stdlib Require Import Lia Lqa Permutation Sorted DecimalString Floats.
From stdpp Require Import gmap strings.
Import ListNotations.
Local Open Scope Z_scope.

(** ** JavaScript values as the code reads them *)

Module Js.

(** A JSON property whose numeric reading the code takes with [Number(v)].
    [Num n] is a number, or a string that reads as the number [n];
    [Other shown] is any value whose numeric reading is [NaN] (text, an
    object), [shown] being what a template literal prints for it. *)
Inductive value (N : Type) : Type :=
| Undefined
| Null
| Num (n : N)
| Other (shown : string).
Arguments Undefined {N}.
Arguments Null {N}.
Arguments Num {N} n.
Arguments Other {N} shown.

Class Zero (N : Type) := zero : N.
#[global] Instance Zero_Z : Zero Z := 0%Z.
#[global] Instance Zero_Q : Zero Q := 0%Q.

(** [Number(v)] when it is finite: [Number(null)] is 0, [Number(undefined)]
    is [NaN]. *)
Definition Number {N} `{Zero N} (v : value N) : option N :=
  match v with
  | Undefined => None
  | Null => Some zero
  | Num n => Some n
  | Other _ => None
  end.

(** [function toNumber(v, fallback = 0)], with a numeric fallback... *)
Definition toNumber {N} `{Zero N} (v : value N) (fallback : N) : N :=
  match Number v with
  | Some n => n
  | None => fallback
  end.

(** ... and with [fallback = null]. *)
Definition toNumberOrNull {N} `{Zero N} (v : value N) : option N :=
  match Number v with
  | Some n => Some n
  | None => None
  end.

(** [!!v], for a [Num] that is a number. *)
Definition truthy (v : value Z) : bool :=
  match v with
  | Undefined | Null => false
  | Num n => negb (n =? 0)
  | Other _ => true
  end.

(** [a || b] on strings. *)
Definition or_string (a b : string) : string :=
  match a with
  | EmptyString => b
  | _ => a
  end.

Definition lower_ascii (c : ascii) : ascii :=
  let n := nat_of_ascii c in
  if ((65 <=? n)%nat && (n <=? 90)%nat)%bool then ascii_of_nat (n + 32) else c.

(** [s.toLowerCase()], on the ASCII letters. *)
Fixpoint toLowerCase (s : string) : string :=
  match s with
  | EmptyString => EmptyString
  | String c s' => String (lower_ascii c) (toLowerCase s')
  end.

(** [s.includes(sub)] *)
Fixpoint includes (s sub : string) : bool :=
  (String.prefix sub s
   || match s with
      | EmptyString => false
      | String _ s' => includes s' sub
      end)%bool.

(** [String(n)] for an integer. *)
Definition string_of_Z (z : Z) : string :=
  NilZero.string_of_int (Z.to_int z).

(** [Math.ceil(n / d)] for integers [n] and [d > 0]. *)
Definition ceil_div (n d : Z) : Z := - ((- n) / d).

End Js.

(** A JavaScript [Map]: [set] on a present key replaces the value in
    place, on a new key appends, and iteration follows insertion order. *)
Module JsMap.
Section Ops.
Context {K V : Type} `{EqDecision K}.

Fixpoint get (k : K) (m : list (K * V)) : option V :=
  match m with
  | [] => None
  | (k', v) :: m' => if decide (k = k') then Some v else get k m'
  end.

Fixpoint set (k : K) (v : V) (m : list (K * V)) : list (K * V) :=
  match m with
  | [] => [(k, v)]
  | (k', v') :: m' =>
      if decide (k = k') then (k, v) :: m' else (k', v') :: set k v m'
  end.

Definition keys (m : list (K * V)) : list K := m.*1.

End Ops.
End JsMap.

(** ** Blueprint documents (Fuzzwork [blueprint.php]) *)

(** One entry of [activityMaterials[act]]. *)
Record Material := {
  m_typeid : Js.value Z;
  m_name : string;
  m_quantity : Js.value Z
}.

Record BlueprintDetails := {
  productTypeName : string;
  productQuantity : Js.value Z
}.

(** [activityMaterials] is [None] when it is missing or not an object; its
    keys come in [Object.keys] order. *)
Record Blueprint := {
  activityMaterials : option (list (string * list Material));
  blueprintDetails : option BlueprintDetails
}.


Definition pickBlueprintActivity (bp : Blueprint) : option string :=
  match activityMaterials bp with
  | None => None
  | Some mats =>
      match JsMap.get "1"%string mats with
      | Some _ => Some "1"%string
      | None =>
          match JsMap.get "11"%string mats with
          | Some _ => Some "11"%string
          | None =>
              match JsMap.keys mats with
              | k :: _ => Some k
              | [] => None
              end
          end
      end
  end.

(** [bp.activityMaterials[act] || []] *)
Definition activityLines (bp : Blueprint) (act : string) : list Material :=
  match activityMaterials bp with
  | Some mats => default [] (JsMap.get act mats)
  | None => []
  end.

(** [toNumber(bp?.blueprintDetails?.productQuantity, 1)] *)
Definition outputPerRun (bp : Blueprint) : Z :=
  match blueprintDetails bp with
  | Some d => Js.toNumber (productQuantity d) 1
  | None => 1
  end.

(** The template literal [`Type ${tid}`]. *)
Definition typeLabel (tid : option Z) : string :=
  ("Type " ++ match tid with
              | Some z => Js.string_of_Z z
              | None => "null"
              end)%string.

(** [bp?.blueprintDetails?.productTypeName || `Type ${tid}`] *)
Definition productLabel (bp : Blueprint) (tid : option Z) : string :=
  Js.or_string
    (match blueprintDetails bp with
     | Some d => productTypeName d
     | None => EmptyString
     end)
    (typeLabel tid).

(** ** Materials expansion *)

Definition shouldExpandMaterial (name : string) (depth maxDepth : Z) : bool :=
  if depth >=? maxDepth then false
  else
    let n := Js.toLowerCase name in
    if Js.includes n "booster" then true
    else if Js.includes n "fuel block" then true
    else false.

(** A value of the [totals] map. *)
Record Total := { t_name : string; t_qty : Z }.

Definition addQty (existing : option Total) (add : Total) : Total :=
  match existing with
  | None => {| t_name := t_name add; t_qty := t_qty add |}
  | Some e =>
      {| t_name := Js.or_string (t_name e) (t_name add);
         t_qty := t_qty e + t_qty add |}
  end.

(** The two collections one call of [expandToRawTotals] owns; a guard key
    [`${tid}@${depth}`] is the pair it is printed from. *)
Record WalkState := {
  totals : list (option Z * Total);
  visited : gset (Z * Z)
}.

(** [totals.set(k, addQty(totals.get(k), { name, qty }))] *)
Definition record (k : option Z) (name : string) (qty : Z) (st : WalkState)
  : WalkState :=
  {| totals :=
       JsMap.set k
         (addQty (JsMap.get k (totals st)) {| t_name := name; t_qty := qty |})
         (totals st);
     visited := visited st |}.

Definition visit (t depth : Z) (st : WalkState) : WalkState :=
  {| totals := totals st; visited := {[ (t, depth) ]} ∪ visited st |}.

(** A row of the array [expandToRawTotals] returns. *)
Record RawTotal := { typeId : option Z; name : string; qty : Z }.

Section Expansion.

(** What [fuzzBlueprint] answers during one expansion: the document, or
    [None] when the call throws.  The 24 h cache keeps the answer for one
    type ID the same for the whole walk. *)
Variable fuzzBlueprint : option Z -> option Blueprint.
Variable maxDepth : Z.

Definition lineTypeId (m : Material) : option Z := Js.toNumberOrNull (m_typeid m).
Definition lineName (m : Material) : string :=
  Js.or_string (m_name m) (typeLabel (lineTypeId m)).
Definition linePerRun (m : Material) : Z := Js.toNumber (m_quantity m) 0.

(** The body of [for (const m of mats)]; [walk'] is the recursive call. *)
Definition walkLine
    (walk' : option Z -> Z -> Z -> WalkState -> option WalkState)
    (runCount depth : Z) (m : Material) (st : WalkState) : option WalkState :=
  let mid := lineTypeId m in
  let mname := lineName m in
  let needed := linePerRun m * runCount in
  if shouldExpandMaterial mname depth maxDepth then
    match fuzzBlueprint mid with
    | Some childBp =>
        match pickBlueprintActivity childBp with
        | Some _ =>
            let childOut := outputPerRun childBp in
            let childRuns := Js.ceil_div needed (Z.max childOut 1) in
            walk' mid childRuns (depth + 1) st
        | None => Some (record mid mname needed st)
        end
    | None => Some (record mid mname needed st)
    end
  else Some (record mid mname needed st).

(** The loop [for (const m of mats)]. *)
Definition walkLines
    (walk' : option Z -> Z -> Z -> WalkState -> option WalkState)
    (runCount depth : Z) (mats : list Material) (st : WalkState)
  : option WalkState :=
  fold_left
    (fun acc m =>
       match acc with
       | Some s => walkLine walk' runCount depth m s
       | None => None
       end)
    mats (Some st).

(** [async function walk(tid, runCount, depth)].  [None] is "out of
    fuel"; [walk_total] below shows that [maxDepth + 1] levels are
    enough. *)
Fixpoint walk (fuel : nat) (tid : option Z) (runCount depth : Z)
    (st : WalkState) : option WalkState :=
  match fuel with
  | O => None
  | S fuel' =>
      match tid with
      | None => Some st
      | Some t =>
          if decide ((t, depth) ∈ visited st) then
            Some (record tid (typeLabel tid) 0 st)
          else
            let st := visit t depth st in
            match fuzzBlueprint tid with
            | None => Some (record tid (typeLabel tid) 0 st)
            | Some bp =>
                match pickBlueprintActivity bp with
                | None => Some (record tid (productLabel bp tid) 0 st)
                | Some act =>
                    match activityLines bp act with
                    | [] => Some (record tid (productLabel bp tid) 0 st)
                    | mats => walkLines (walk fuel') runCount depth mats st
                    end
                end
            end
      end
  end.

Definition emptyWalk : WalkState := {| totals := []; visited := ∅ |}.

(** The closing loop: [if (v.qty > 0) out.push(...)]. *)
Definition surfaced (ts : list (option Z * Total)) : list RawTotal :=
  omap (fun kv : option Z * Total =>
          if 0 <? t_qty kv.2
          then Some {| typeId := kv.1; name := t_name kv.2; qty := t_qty kv.2 |}
          else None) ts.

Definition expandToRawTotals (tid : option Z) (runs : Z) : option (list RawTotal) :=
  match walk (S (Z.to_nat maxDepth)) tid runs 0 emptyWalk with
  | Some st => Some (surfaced (totals st))
  | None => None
  end.

End Expansion.

(** ** Fetch + caching *)

(** What the network answers to one [fetch(url)]: the promise rejects, or
    it resolves to a response with [res.ok], [res.status] and the body. *)
Inductive HttpReply :=
| Rejected
| Response (ok : bool) (status : Z) (text : string).

Inductive Error :=
| HttpError (status : Z) (url : string)
| ParseError (url : string)
| NetworkError
| TypeError.

Inductive Outcome (A : Type) : Type :=
| Returned (a : A)
| Thrown (e : Error).
Arguments Returned {A} a.
Arguments Thrown {A} e.

(** The parsed content of the [localStorage] slot [eve_typeid_cache_v1].
    An index value is a type ID, or [None] for [NaN] / [null]. *)
Record TypeIdCache := {
  savedAt : Z;
  cache_map : option (gmap string (option Z))
}.

(** One row of the [typeid2.php] answer. *)
Record TypeRow := { typeName : string; typeID : Js.value Z }.

Section Fetch.

(** Parsed JSON documents, [JSON.parse], [encodeURIComponent], the rows an
    iterable document yields ([None] when [for ... of] throws), and the
    network: the latency in ms and the reply to a request issued at a given
    time. *)
Context {Json : Type}.
Variable JSON_parse : string -> option Json.
Variable encodeURIComponent : string -> string.
Variable typeRows : Json -> option (list (option TypeRow)).
Variable network : Z -> string -> N * HttpReply.

Record CacheEntry := { time : Z; data : Json }.

(** The module-level variables, the clock [Date.now()] reads, and the log of
    the requests handed to [fetch]. *)
Record World := {
  clock : Z;
  memCache : gmap string CacheEntry;
  adamLastCallMs : Z;
  localStorage : option TypeIdCache;
  requests : list (Z * string)
}.

Definition elapse (ms : Z) (w : World) : World :=
  {| clock := clock w + ms; memCache := memCache w;
     adamLastCallMs := adamLastCallMs w; localStorage := localStorage w;
     requests := requests w |}.

Definition logRequest (url : string) (w : World) : World :=
  {| clock := clock w; memCache := memCache w;
     adamLastCallMs := adamLastCallMs w; localStorage := localStorage w;
     requests := requests w ++ [(clock w, url)] |}.

Definition cacheSet (key : string) (e : CacheEntry) (w : World) : World :=
  {| clock := clock w; memCache := <[key := e]> (memCache w);
     adamLastCallMs := adamLastCallMs w; localStorage := localStorage w;
     requests := requests w |}.

Definition setAdamLastCallMs (t : Z) (w : World) : World :=
  {| clock := clock w; memCache := memCache w;
     adamLastCallMs := t; localStorage := localStorage w;
     requests := requests w |}.

Definition setLocalStorage (c : TypeIdCache) (w : World) : World :=
  {| clock := clock w; memCache := memCache w;
     adamLastCallMs := adamLastCallMs w; localStorage := Some c;
     requests := requests w |}.

Definition cacheKey (url : string) : string := ("json:" ++ url)%string.

(** [hit && (ttlMs <= 0 || now - hit.time < ttlMs)] *)
Definition cacheHit (ttlMs now : Z) (hit : option CacheEntry) : option Json :=
  match hit with
  | Some h => if ((ttlMs <=? 0) || (now - time h <? ttlMs))%bool
              then Some (data h) else None
  | None => None
  end.

Definition fetchJson (url : string) (ttlMs : Z) (w : World)
  : Outcome Json * World :=
  let key := cacheKey url in
  let now := clock w in
  match cacheHit ttlMs now (memCache w !! key) with
  | Some d => (Returned d, w)
  | None =>
      let '(latency, reply) := network now url in
      let w := elapse (Z.of_N latency) (logRequest url w) in
      match reply with
      | Rejected => (Thrown NetworkError, w)
      | Response ok status txt =>
          if negb ok then (Thrown (HttpError status url), w)
          else
            match JSON_parse txt with
            | None => (Thrown (ParseError url), w)
            | Some d => (Returned d, cacheSet key {| time := now; data := d |} w)
            end
      end
  end.

(** *** Adam4EVE throttling *)

(** One call as the queue settles it: when its turn came, when the request
    went out, when it settled, and what its caller receives. *)
Record Settled := {
  startedAt : Z;
  issuedAt : Z;
  settledAt : Z;
  outcome : Outcome Json
}.

(** The function [adamFetchJson] chains onto [adamQueue]; it runs when
    every earlier link has settled. *)
Definition adamFetchJson (url : string) (ttlMs : Z) (w : World)
  : Settled * World :=
  let now := clock w in
  let waitMs := Z.max 0 (5100 - (now - adamLastCallMs w)) in
  let w1 := elapse waitMs w in
  match fetchJson url ttlMs w1 with
  | (Returned d, w2) =>
      ({| startedAt := now; issuedAt := clock w1; settledAt := clock w2;
          outcome := Returned d |},
       setAdamLastCallMs (clock w2) w2)
  | (Thrown e, w2) =>
      ({| startedAt := now; issuedAt := clock w1; settledAt := clock w2;
          outcome := Thrown e |},
       w2)
  end.

(** The chain [adamQueue] after the calls were submitted in this order:
    [.catch(() => {})] lets the next link run whatever the previous one
    did. *)
Fixpoint adamQueue (calls : list (string * Z)) (w : World)
  : list Settled * World :=
  match calls with
  | [] => ([], w)
  | (url, ttlMs) :: rest =>
      let '(s, w1) := adamFetchJson url ttlMs w in
      let '(ss, w2) := adamQueue rest w1 in
      (s :: ss, w2)
  end.

(** *** TypeID resolution *)

Definition loadTypeIdCache (w : World) : TypeIdCache :=
  match localStorage w with
  | Some parsed => parsed
  | None => {| savedAt := 0; cache_map := Some ∅ |}
  end.

Definition saveTypeIdCache (obj : TypeIdCache) (w : World) : World :=
  setLocalStorage obj w.

Fixpoint chunk_from {A} (fuel : nat) (arr : list A) (size : nat) : list (list A) :=
  match fuel, arr with
  | S fuel', _ :: _ => take size arr :: chunk_from fuel' (drop size arr) size
  | _, _ => []
  end.

(** [chunk(arr, size)] for [size > 0]: the loop runs at most [arr.length]
    times. *)
Definition chunk {A} (arr : list A) (size : nat) : list (list A) :=
  chunk_from (length arr) arr size.

(** [!!map[n]] *)
Definition known (m : gmap string (option Z)) (n : string) : bool :=
  match m !! n with
  | Some (Some id) => negb (id =? 0)
  | _ => false
  end.

(** [for (const row of data) if (row && row.typeName && row.typeID) ...] *)
Definition mergeRows (rows : list (option TypeRow)) (m : gmap string (option Z))
  : gmap string (option Z) :=
  fold_left
    (fun m row =>
       match row with
       | Some r =>
           match typeName r with
           | EmptyString => m
           | _ =>
               if Js.truthy (typeID r)
               then <[typeName r := Js.Number (typeID r)]> m
               else m
           end
       | None => m
       end)
    rows m.

Definition typeidUrl (names : list string) : string :=
  ("https://www.fuzzwork.co.uk/api/typeid2.php?typename="
   ++ String.concat "|" (List.map encodeURIComponent names))%string.

(** [for (const names of parts) { ... }] *)
Fixpoint resolveParts (parts : list (list string)) (m : gmap string (option Z))
    (w : World) : Outcome (gmap string (option Z)) * World :=
  match parts with
  | [] => (Returned m, w)
  | names :: rest =>
      match fetchJson (typeidUrl names) (24 * 3600 * 1000) w with
      | (Thrown e, w') => (Thrown e, w')
      | (Returned d, w') =>
          match typeRows d with
          | None => (Thrown TypeError, w')
          | Some rows => resolveParts rest (mergeRows rows m) w'
          end
      end
  end.

Definition resolveTypeIDsByName (typeNames : list string) (w : World)
  : Outcome (gmap string (option Z)) * World :=
  let cacheObj := loadTypeIdCache w in
  let m := default ∅ (cache_map cacheObj) in
  let missing := List.filter (fun n => negb (known m n)) typeNames in
  match missing with
  | [] => (Returned m, w)
  | _ =>
      match resolveParts (chunk missing 20) m w with
      | (Returned m', w') =>
          (Returned m',
           saveTypeIdCache {| savedAt := clock w'; cache_map := Some m' |} w')
      | (Thrown e, w') => (Thrown e, w')
      end
  end.

End Fetch.

(** ** Fuzzwork market aggregates *)

Record AggSide := {
  a_min : Js.value Q;
  a_max : Js.value Q;
  a_volume : Js.value Q
}.

(** One record of an aggregates document; a side is [None] when missing. *)
Record AggRecord := { buy : option AggSide; sell : option AggSide }.

(** [String(typeId)], the key of an aggregates document. *)
Definition aggKey (typeId : option Z) : string :=
  match typeId with
  | Some z => Js.string_of_Z z
  | None => "null"%string
  end.

Definition getAggPrice (aggForStation : gmap string AggRecord)
    (typeId : option Z) (mode : string) : option Q :=
  match aggForStation !! aggKey typeId with
  | None => None
  | Some rec =>
      if String.eqb mode "buy_max"
      then Js.toNumberOrNull
             (match buy rec with Some s => a_max s | None => Js.Undefined end)
      else Js.toNumberOrNull
             (match sell rec with Some s => a_min s | None => Js.Undefined end)
  end.

(** ** [Array.prototype.sort] *)

(** The sort is stable; [le a b] says that the comparator does not put [b]
    before [a]. *)
Fixpoint js_insert {A} (le : A -> A -> bool) (x : A) (l : list A) : list A :=
  match l with
  | [] => [x]
  | y :: l' => if le x y then x :: y :: l' else y :: js_insert le x l'
  end.

Fixpoint js_sort {A} (le : A -> A -> bool) (l : list A) : list A :=
  match l with
  | [] => []
  | x :: l' => js_insert le x (js_sort le l')
  end.

(** ** The raw-materials table *)

Record RawRow := {
  row_typeId : option Z;
  row_name : string;
  row_qty : Z;
  row_perRun : Q;
  row_unit : option Q;
  row_cost : option Q
}.

Definition rawRow (agg : gmap string AggRecord) (totalRuns : Z) (mode : string)
    (r : RawTotal) : RawRow :=
  let unit := getAggPrice agg (typeId r) mode in
  {| row_typeId := typeId r;
     row_name := name r;
     row_qty := qty r;
     row_perRun := (inject_Z (qty r) / inject_Z totalRuns)%Q;
     row_unit := unit;
     row_cost := match unit with
                 | Some u => Some (u * inject_Z (qty r))%Q
                 | None => None
                 end |}.

(** [renderRawMaterials]: the rows appended to the table body, and the
    returned [totalCost]. *)
Definition renderRawMaterials (fuzzAgg : gmap string (gmap string AggRecord))
    (rawTotals : list RawTotal) (totalRuns : Z) (costHubKey mode : string)
  : list RawRow * Q :=
  let agg := default ∅ (fuzzAgg !! costHubKey) in
  let rows := js_sort (fun a b => qty b <=? qty a) rawTotals in
  fold_left
    (fun '(tb, totalCost) r =>
       let tr := rawRow agg totalRuns mode r in
       (tb ++ [tr],
        match row_cost tr with
        | Some cost => (totalCost + cost)%Q
        | None => totalCost
        end))
    rows ([], 0%Q).

(** ** 7-day price statistics *)

Record HistoryRow := {
  type_id : Js.value Z;
  price_date : string;
  sell_price_avg : Js.value Q
}.

Record Stats := {
  s_first : option Q;
  s_last : option Q;
  s_min : Q;
  s_max : Q;
  s_avg : Q;
  s_pct : option Q
}.

Definition Qltb (a b : Q) : bool :=
  match (a ?= b)%Q with
  | Lt => true
  | _ => false
  end.

(** [String(a.price_date).localeCompare(String(b.price_date)) <= 0]; on ISO
    dates the collation order is the order of the characters. *)
Definition byDate (a b : HistoryRow) : bool :=
  String.leb (price_date a) (price_date b).

(** [rows.map(...).filter((p) => p !== null && Number.isFinite(p) && p > 0)] *)
Definition validPrices (rows : list HistoryRow) : list Q :=
  List.filter (Qltb 0) (omap (fun r => Js.toNumberOrNull (sell_price_avg r)) rows).

Definition percentChange (p0 p1 : option Q) : option Q :=
  match p0, p1 with
  | Some a, Some b =>
      if Qltb 0 a then Some ((b - a) / a * 100)%Q else None
  | _, _ => None
  end.

(** The body of [for (const [tid, rows] of byType.entries())], up to the
    record it stores; [None] when [prices.length] is 0. *)
Definition seriesStats (rows : list HistoryRow) : option Stats :=
  let rows := js_sort byDate rows in
  match rows with
  | [] => None
  | first :: _ =>
      let last := List.last rows first in
      let prices := validPrices rows in
      let p0 := Js.toNumberOrNull (sell_price_avg first) in
      let p1 := Js.toNumberOrNull (sell_price_avg last) in
      match prices with
      | [] => None
      | p :: ps =>
          Some {| s_first := p0;
                  s_last := p1;
                  s_min := fold_left Qmin ps p;
                  s_max := fold_left Qmax ps p;
                  s_avg := (fold_left Qplus prices 0 / inject_Z (Z.of_nat (length prices)))%Q;
                  s_pct := percentChange p0 p1 |}
      end
  end.

(** [byType]: the rows of each [Number(row.type_id)], in arrival order. *)
Definition groupByType (data : list HistoryRow)
  : list (option Z * list HistoryRow) :=
  fold_left
    (fun byType row =>
       let tid := Js.Number (type_id row) in
       JsMap.set tid (default [] (JsMap.get tid byType) ++ [row]) byType)
    data [].

(** The maps of [state] the two loaders write. *)
Record TrendState := {
  gasTrends7d : list (option Z * Q);
  gasStats7d : list (option Z * Stats);
  boosterStats7d : list (option Z * Stats)
}.

(** [loadGasTrends7d], once [data] has arrived. *)
Definition loadGasTrends7d (data : list HistoryRow) (state : TrendState)
  : TrendState :=
  fold_left
    (fun st '(tid, rows) =>
       match seriesStats rows with
       | Some s =>
           {| gasTrends7d := match s_pct s with
                             | Some pct => JsMap.set tid pct (gasTrends7d st)
                             | None => gasTrends7d st
                             end;
              gasStats7d := JsMap.set tid s (gasStats7d st);
              boosterStats7d := boosterStats7d st |}
       | None => st
       end)
    (groupByType data) state.

(** [loadBoosterStats7d], for one chunk whose [data] has arrived. *)
Definition loadBoosterStats7d (data : list HistoryRow) (state : TrendState)
  : TrendState :=
  fold_left
    (fun st '(tid, rows) =>
       match seriesStats rows with
       | Some s =>
           {| gasTrends7d := gasTrends7d st;
              gasStats7d := gasStats7d st;
              boosterStats7d := JsMap.set tid s (boosterStats7d st) |}
       | None => st
       end)
    (groupByType data) state.

(** [((p1 - p0) / p0) * 100] as the engine evaluates it, in binary64. *)
Definition percentChange64 (p0 p1 : float) : float :=
  ((p1 - p0) / p0 * 100)%float.

(** ** Calculator main action *)

(** The selected entry of [state.boosterItems]. *)
Record Item := { i_name : string; i_typeId : option Z }.

(** The form controls [runCalculator] reads. *)
Record Controls := {
  bpcCostInput : Js.value Q;
  totalRunsInput : Js.value Q;
  expansionDepthInput : Js.value Z;
  costHubInput : string;
  inputPriceMode : string;
  outputPriceMode : string;
  showProfit : bool
}.

Record DirectMat := { d_typeId : option Z; d_name : string; d_qtyPerRun : Z }.

(** The numbers behind the summary cards, and the raw-materials table. *)
Record Summary := {
  productName : string;
  outPerRun : Z;
  totalRuns : Z;
  totalOutputUnits : Z;
  totalMaterialCost : Q;
  bpcCost : Q;
  totalCostAllIn : Q;
  outUnitPrice : option Q;
  estRevenue : option Q;
  estProfit : option Q;
  bpcPerRun : Q;
  bpcPerUnit : Q;
  costPerRun : Q;
  costPerUnit : Q;
  rawTable : list RawRow
}.

Inductive CalcResult :=
| Status (msg : string)
| Cards (s : Summary).

(** [`Type ${m.typeid}`], on the raw property. *)
Definition rawTypeLabel (v : Js.value Z) : string :=
  ("Type " ++ match v with
              | Js.Undefined => "undefined"
              | Js.Null => "null"
              | Js.Num n => Js.string_of_Z n
              | Js.Other shown => shown
              end)%string.

Definition directMaterial (m : Material) : DirectMat :=
  {| d_typeId := Js.toNumberOrNull (m_typeid m);
     d_name := Js.or_string (m_name m) (rawTypeLabel (m_typeid m));
     d_qtyPerRun := Js.toNumber (m_quantity m) 0 |}.

(** [!!m.typeId] *)
Definition hasTypeId (t : option Z) : bool :=
  match t with
  | Some z => negb (z =? 0)
  | None => false
  end.

Definition runCalculator
    (fuzzBlueprint : option Z -> option Blueprint)
    (fuzzAgg : gmap string (gmap string AggRecord))
    (item : option Item) (c : Controls) : CalcResult :=
  match item with
  | None => Status "Selected item does not have a resolved typeID."
  | Some item =>
  if negb (hasTypeId (i_typeId item))
  then Status "Selected item does not have a resolved typeID."
  else
  let bpcCost := Js.toNumber (bpcCostInput c) 0%Q in
  let totalRuns := Z.max 1 (Qfloor (Js.toNumber (totalRunsInput c) 1%Q)) in
  let maxDepth := Js.toNumber (expansionDepthInput c) 0 in
  let costHubKey := Js.or_string (costHubInput c) "jita" in
  match fuzzBlueprint (i_typeId item) with
  | None => Status "Failed to fetch blueprint data for the selected item."
  | Some bp =>
  match pickBlueprintActivity bp with
  | None => Status "No manufacturing/reaction materials found for this item."
  | Some act =>
  let outPerRun := outputPerRun bp in
  let productName :=
    Js.or_string
      (match blueprintDetails bp with
       | Some d => productTypeName d
       | None => EmptyString
       end)
      (i_name item) in
  let directMats :=
    List.filter (fun m => hasTypeId (d_typeId m))
      (List.map directMaterial (activityLines bp act)) in
  let rawTotals :=
    if 0 <? maxDepth
    then default [] (expandToRawTotals fuzzBlueprint maxDepth (i_typeId item) totalRuns)
    else [] in
  let '(table, totalMaterialCost) :=
    if 0 <? maxDepth
    then renderRawMaterials fuzzAgg rawTotals totalRuns costHubKey (inputPriceMode c)
    else
      let agg := default ∅ (fuzzAgg !! costHubKey) in
      let sum :=
        fold_left
          (fun sum m =>
             match getAggPrice agg (d_typeId m) (inputPriceMode c) with
             | Some unit => (sum + unit * inject_Z (d_qtyPerRun m * totalRuns))%Q
             | None => sum
             end)
          directMats 0%Q in
      let pseudoRaw :=
        List.map (fun m => {| typeId := d_typeId m; name := d_name m;
                              qty := d_qtyPerRun m * totalRuns |}) directMats in
      (fst (renderRawMaterials fuzzAgg pseudoRaw totalRuns costHubKey (inputPriceMode c)),
       sum) in
  let totalCostAllIn := (totalMaterialCost + bpcCost)%Q in
  let aggCostHub := default ∅ (fuzzAgg !! costHubKey) in
  let outUnitPrice := getAggPrice aggCostHub (i_typeId item) (outputPriceMode c) in
  let totalOutputUnits := totalRuns * outPerRun in
  let estRevenue :=
    match outUnitPrice with
    | Some p => Some (p * inject_Z totalOutputUnits)%Q
    | None => None
    end in
  let estProfit :=
    match estRevenue with
    | Some r => Some (r - totalCostAllIn)%Q
    | None => None
    end in
  Cards
    {| productName := productName;
       outPerRun := outPerRun;
       totalRuns := totalRuns;
       totalOutputUnits := totalOutputUnits;
       totalMaterialCost := totalMaterialCost;
       bpcCost := bpcCost;
       totalCostAllIn := totalCostAllIn;
       outUnitPrice := outUnitPrice;
       estRevenue := estRevenue;
       estProfit := estProfit;
       bpcPerRun := (bpcCost / inject_Z totalRuns)%Q;
       bpcPerUnit := (bpcCost / inject_Z (Z.max totalOutputUnits 1))%Q;
       costPerRun := (totalCostAllIn / inject_Z totalRuns)%Q;
       costPerUnit := (totalCostAllIn / inject_Z (Z.max totalOutputUnits 1))%Q;
       rawTable := table |}
  end
  end
  end.

(** ** Reference notions for the expansion *)

(** The input lines of the activity chosen for [tid]. *)
Definition directLines (fuzzBlueprint : option Z -> option Blueprint)
    (tid : option Z) : list Material :=
  match fuzzBlueprint tid with
  | Some bp =>
      match pickBlueprintActivity bp with
      | Some act => activityLines bp act
      | None => []
      end
  | None => []
  end.

(** [quantityPerRun × runs], summed over the lines whose input is [k]. *)
Definition lineDemand (runs : Z) (k : option Z) (lines : list Material) : Z :=
  foldr (fun m acc =>
           if decide (lineTypeId m = k) then linePerRun m * runs + acc else acc)
        0 lines.

(** "One flat entry per direct input line, with the summed quantity". *)
Definition oneEntryPerLine (lines : list Material) (runs : Z)
    (out : list RawTotal) : Prop :=
  forall m, m ∈ lines ->
    exists e, e ∈ out /\ typeId e = lineTypeId m
              /\ qty e = lineDemand runs (lineTypeId m) lines.

(** What the loop over [mats] does when it expands no line. *)
Definition recordLines (runs : Z) (mats : list Material) (st : WalkState)
  : WalkState :=
  fold_left
    (fun s m => record (lineTypeId m) (lineName m) (linePerRun m * runs) s)
    mats st.

(** The quantity a [totals] lookup stands for. *)
Definition qtyOf (t : option Total) : Z :=
  match t with
  | Some t => t_qty t
  | None => 0
  end.

(** ** Scenarios *)

Definition material (t : Z) (n : string) (q : Z) : Material :=
  {| m_typeid := Js.Num t; m_name := n; m_quantity := Js.Num q |}.

(** A blueprint with the manufacturing activity only. *)
Definition manufacturing (product : string) (out : Z) (lines : list Material)
  : Blueprint :=
  {| activityMaterials := Some [("1"%string, lines)];
     blueprintDetails :=
       Some {| productTypeName := product; productQuantity := Js.Num out |} |}.

(** Type 1 needs 5 of type 34 and lists type 35 with quantity 0. *)
Definition recipeWithZeroLine (t : option Z) : option Blueprint :=
  match t with
  | Some 1 =>
      Some (manufacturing "Widget" 1
              [material 34 "Tritanium" 5; material 35 "Pyerite" 0])
  | _ => None
  end.

(** Type 1 lists itself among its inputs. *)
Definition selfReferencing (t : option Z) : option Blueprint :=
  match t with
  | Some 1 =>
      Some (manufacturing "Strong Exile Booster" 1
              [material 1 "Strong Exile Booster" 1; material 5 "Gas" 3])
  | _ => None
  end.

(** Type 1 needs 10 of type 2, whose manufacturing activity has no lines. *)
Definition childWithoutLines (t : option Z) : option Blueprint :=
  match t with
  | Some 1 => Some (manufacturing "Widget" 1 [material 2 "Gear Booster" 10])
  | Some 2 => Some (manufacturing "Gear Booster" 1 [])
  | _ => None
  end.

(** "Widget" needs 10 "Gear" per run, "Gear" needs 2 "Bolt" per run. *)
Definition widget (gear : string) (t : option Z) : option Blueprint :=
  match t with
  | Some 1 => Some (manufacturing "Widget" 1 [material 2 gear 10])
  | Some 2 => Some (manufacturing gear 1 [material 3 "Bolt" 2])
  | _ => None
  end.

(** A page load: nothing cached, no throttled call made yet. *)
Definition pageLoad (now : Z) : World (Json := string) :=
  {| clock := now; memCache := ∅; adamLastCallMs := 0;
     localStorage := None; requests := [] |}.

(** Documents kept as their text. *)
Definition parseText (txt : string) : option string := Some txt.

(** A source that answers every request with HTTP 503 after 250 ms. *)
Definition unavailable (now : Z) (url : string) : N * HttpReply :=
  (250%N, Response false 503 "").

(** A source that answers every request with a document after 250 ms. *)
Definition available (now : Z) (url : string) : N * HttpReply :=
  (250%N, Response true 200 "[]").

(** The least time [n] throttled calls may take: [(n - 1) × minInterval]. *)
Definition minInterval : Z := 5100.

Definition spacedOut {Json : Type} (ss : list (Settled (Json := Json))) : Prop :=
  match ss with
  | [] => True
  | s :: _ =>
      (Z.of_nat (length ss) - 1) * minInterval
      <= settledAt (List.last ss s) - issuedAt s
  end.

(** A persisted index with two names, stored at time 5. *)
Definition twoNames : gmap string (option Z) :=
  <["Tritanium"%string := Some 34]> (<["Pyerite"%string := Some 35]> ∅).

Definition returningVisit (now : Z) : World (Json := string) :=
  {| clock := now; memCache := ∅; adamLastCallMs := 0;
     localStorage := Some {| savedAt := 5; cache_map := Some twoNames |};
     requests := [] |}.

(** The rows of a [typeid2.php] answer, here none. *)
Definition noRows (doc : string) : option (list (option TypeRow)) := Some [].

(** ** Reference notions for the costing *)

Definition Qsum (l : list Q) : Q := fold_left Qplus l 0%Q.

(** The number of table rows without a price. *)
Definition skipped (tb : list RawRow) : nat :=
  length (List.filter (fun r => match row_unit r with
                                | None => true
                                | Some _ => false
                                end) tb).

(** Jita quotes Tritanium (34) at 4.5 to sell; nothing else is on offer. *)
Definition jitaTritanium : gmap string (gmap string AggRecord) :=
  {[ "jita"%string :=
       {[ "34"%string :=
            {| buy := None;
               sell := Some {| a_min := Js.Num (9 # 2)%Q; a_max := Js.Num 5%Q;
                               a_volume := Js.Num 1000%Q |} |} ]} ]}.

Definition tritanium15 : RawTotal :=
  {| typeId := Some 34; name := "Tritanium"; qty := 15 |}.

Definition pyerite7 : RawTotal :=
  {| typeId := Some 35; name := "Pyerite"; qty := 7 |}.

(** ** A falling series *)

Definition historyRow (t : Z) (d : string) (p : Q) : HistoryRow :=
  {| type_id := Js.Num t; price_date := d; sell_price_avg := Js.Num p |}.

(** Eight daily averages of type 25237, 100 down to 30, as they may arrive. *)
Definition fallingSeries : list HistoryRow :=
  [ historyRow 25237 "2024-03-04" 70;
    historyRow 25237 "2024-03-01" 100;
    historyRow 25237 "2024-03-08" 30;
    historyRow 25237 "2024-03-02" 90;
    historyRow 25237 "2024-03-03" 80;
    historyRow 25237 "2024-03-05" 60;
    historyRow 25237 "2024-03-06" 50;
    historyRow 25237 "2024-03-07" 40 ].

Definition noTrends : TrendState :=
  {| gasTrends7d := []; gasStats7d := []; boosterStats7d := [] |}.

(** The price a row holds, as the loaders read it. *)
Definition rowPrice (r : HistoryRow) : option Q :=
  Js.toNumberOrNull (sell_price_avg r).

(** A series whose earliest day has no average and whose second day reads
    0: two valid points remain. *)
Definition unknownStart : list HistoryRow :=
  [ {| type_id := Js.Num 25268; price_date := "2024-03-01";
       sell_price_avg := Js.Undefined |};
    historyRow 25268 "2024-03-02" 0;
    historyRow 25268 "2024-03-03" 50;
    historyRow 25268 "2024-03-04" 60 ].

(** ** A costing run *)

(** Jita quotes Tritanium (34) at 4.5 and the Widget (type 1) at 40. *)
Definition jitaWidget : gmap string (gmap string AggRecord) :=
  {[ "jita"%string :=
       <["34"%string :=
           {| buy := None;
              sell := Some {| a_min := Js.Num (9 # 2)%Q; a_max := Js.Num 5%Q;
                              a_volume := Js.Num 1000%Q |} |}]>
       {[ "1"%string :=
            {| buy := None;
               sell := Some {| a_min := Js.Num 40%Q; a_max := Js.Num 45%Q;
                               a_volume := Js.Num 10%Q |} |} ]} ]}.

Definition widgetItem : Item := {| i_name := "Widget"; i_typeId := Some 1 |}.

(** Two runs, a 100 ISK blueprint copy, no expansion, Jita sell prices. *)
Definition twoRuns : Controls :=
  {| bpcCostInput := Js.Num 100%Q;
     totalRunsInput := Js.Num 2%Q;
     expansionDepthInput := Js.Num 0;
     costHubInput := "jita";
     inputPriceMode := "sell_min";
     outputPriceMode := "sell_min";
     showProfit := true |}.

(** ** Further reference notions *)

(** The name test of [shouldExpandMaterial]. *)
Definition qualifies (name : string) : bool :=
  (Js.includes (Js.toLowerCase name) "booster"
   || Js.includes (Js.toLowerCase name) "fuel block")%bool.

(** Type 1 names the same expandable child on two lines. *)
Definition twiceTheSameChild (t : option Z) : option Blueprint :=
  match t with
  | Some 1 =>
      Some (manufacturing "Widget" 1
              [material 2 "Gear Booster" 10; material 2 "Gear Booster" 5])
  | Some 2 => Some (manufacturing "Gear Booster" 4 [material 3 "Bolt" 2])
  | _ => None
  end.

(** A [typeid2.php] answer that knows Megacyte. *)
Definition megacyteRow (doc : string) : option (list (option TypeRow)) :=
  Some [Some {| typeName := "Megacyte"; typeID := Js.Num 40 |}].

(** The rows of [data] whose [Number(row.type_id)] is [k], in arrival
    order. *)
Definition rowsOfType (k : option Z) (data : list HistoryRow) : list HistoryRow :=
  List.filter (fun r => bool_decide (Js.Number (type_id r) = k)) data.

(** Rows of two types, interleaved. *)
Definition twoTypes : list HistoryRow :=
  [ historyRow 25237 "2024-03-02" 90;
    historyRow 25268 "2024-03-01" 50;
    historyRow 25237 "2024-03-01" 100 ].

(** ** Escaping *)

(** [s.replaceAll(c, repl)] for a one-character pattern. *)
Fixpoint replaceAll (c : ascii) (repl : string) (s : string) : string :=
  match s with
  | EmptyString => EmptyString
  | String a s' =>
      if Ascii.eqb a c then (repl ++ replaceAll c repl s')%string
      else String a (replaceAll c repl s')
  end.

(** The double quote, U+0022. *)
Definition dquote : ascii := ascii_of_nat 34.

Definition esc (str : string) : string :=
  replaceAll "'" "&#039;"
    (replaceAll dquote "&quot;"
       (replaceAll ">" "&gt;"
          (replaceAll "<" "&lt;"
             (replaceAll "&" "&amp;" str)))).

(** The characters that open or close markup or an attribute value. *)
Definition markup (c : ascii) : Prop :=
  c = "<"%char \/ c = ">"%char \/ c = dquote \/ c = "'"%char.

(** What [esc] makes of one character. *)
Definition escChar (c : ascii) : string :=
  if Ascii.eqb c "&" then "&amp;"
  else if Ascii.eqb c "<" then "&lt;"
  else if Ascii.eqb c ">" then "&gt;"
  else if Ascii.eqb c dquote then "&quot;"
  else if Ascii.eqb c "'" then "&#039;"
  else String c EmptyString.

(** ** Flip triggers *)

(** The helpers of [computeOpinionHtml]; 1.10, 0.90 and 0.95 are the
    rationals they denote. *)
Definition flipThreshold (stats : option Stats) (fallbackNow : option Q)
  : option Q :=
  match stats with
  | Some s =>
      if Qltb 0 (s_min s) then Some (s_min s * (110 # 100))%Q
      else match fallbackNow with
           | Some now => if Qltb 0 now then Some (now * (90 # 100))%Q else None
           | None => None
           end
  | None =>
      match fallbackNow with
      | Some now => if Qltb 0 now then Some (now * (90 # 100))%Q else None
      | None => None
      end
  end.

Definition flipTarget (stats : option Stats) (fallbackNow : option Q)
  : option Q :=
  match stats with
  | Some s =>
      if Qltb 0 (s_max s) then Some (s_max s * (95 # 100))%Q
      else match fallbackNow with
           | Some now => if Qltb 0 now then Some (now * (110 # 100))%Q else None
           | None => None
           end
  | None =>
      match fallbackNow with
      | Some now => if Qltb 0 now then Some (now * (110 # 100))%Q else None
      | None => None
      end
  end.

Definition volatility (stats : option Stats) : Q :=
  match stats with
  | None => 0%Q
  | Some s =>
      if Qltb 0 (s_avg s) then
        let range := (s_max s - s_min s)%Q in
        if Qltb 0 range then (range / s_avg s)%Q else 0%Q
      else 0%Q
  end.

(** ** Ice equivalents *)

Record IceYield := {
  heavyWater : Z;
  liquidOzone : Z;
  strontium : Z;
  isotope : option string;
  isotopeQty : Z
}.

(** The table [ICE_YIELDS], in the order of its keys. *)
Definition ICE_YIELDS : list (string * IceYield) :=
  [ ("Clear Icicle"%string,
     {| heavyWater := 69; liquidOzone := 35; strontium := 1;
        isotope := Some "Helium Isotopes"%string; isotopeQty := 414 |});
    ("White Glaze"%string,
     {| heavyWater := 69; liquidOzone := 35; strontium := 1;
        isotope := Some "Nitrogen Isotopes"%string; isotopeQty := 414 |});
    ("Blue Ice"%string,
     {| heavyWater := 69; liquidOzone := 35; strontium := 1;
        isotope := Some "Oxygen Isotopes"%string; isotopeQty := 414 |});
    ("Glacial Mass"%string,
     {| heavyWater := 69; liquidOzone := 35; strontium := 1;
        isotope := Some "Hydrogen Isotopes"%string; isotopeQty := 414 |});
    ("Glare Crust"%string,
     {| heavyWater := 1381; liquidOzone := 691; strontium := 35;
        isotope := None; isotopeQty := 0 |});
    ("Dark Glitter"%string,
     {| heavyWater := 691; liquidOzone := 1381; strontium := 69;
        isotope := None; isotopeQty := 0 |});
    ("Gelidus"%string,
     {| heavyWater := 345; liquidOzone := 691; strontium := 104;
        isotope := None; isotopeQty := 0 |});
    ("Krystallos"%string,
     {| heavyWater := 173; liquidOzone := 691; strontium := 173;
        isotope := None; isotopeQty := 0 |}) ].

(** The object [need]. *)
Record IceNeed := {
  needHeavyWater : Z;
  needLiquidOzone : Z;
  needStrontium : Z;
  needIsotopes : list (string * Z)
}.

Definition noNeed : IceNeed :=
  {| needHeavyWater := 0; needLiquidOzone := 0; needStrontium := 0;
     needIsotopes :=
       [ ("Helium Isotopes"%string, 0); ("Nitrogen Isotopes"%string, 0);
         ("Oxygen Isotopes"%string, 0); ("Hydrogen Isotopes"%string, 0) ] |}.

(** [x || fallback] on numbers. *)
Definition orNum (x fallback : Z) : Z := if x =? 0 then fallback else x.

(** [need.isotopes[k] += qty] *)
Definition addIsotope (k : string) (qty : Z) (need : IceNeed) : IceNeed :=
  {| needHeavyWater := needHeavyWater need;
     needLiquidOzone := needLiquidOzone need;
     needStrontium := needStrontium need;
     needIsotopes :=
       JsMap.set k (default 0 (JsMap.get k (needIsotopes need)) + qty)
         (needIsotopes need) |}.

(** The body of the first loop of [computeIceEquivalents]. *)
Definition addNeed (need : IceNeed) (r : RawTotal) : IceNeed :=
  let n := Js.toLowerCase (name r) in
  let q := qty r in
  if q =? 0 then need
  else if String.eqb n "heavy water" then
    {| needHeavyWater := needHeavyWater need + q;
       needLiquidOzone := needLiquidOzone need;
       needStrontium := needStrontium need;
       needIsotopes := needIsotopes need |}
  else if String.eqb n "liquid ozone" then
    {| needHeavyWater := needHeavyWater need;
       needLiquidOzone := needLiquidOzone need + q;
       needStrontium := needStrontium need;
       needIsotopes := needIsotopes need |}
  else if String.eqb n "strontium clathrates" then
    {| needHeavyWater := needHeavyWater need;
       needLiquidOzone := needLiquidOzone need;
       needStrontium := needStrontium need + q;
       needIsotopes := needIsotopes need |}
  else if String.eqb n "helium isotopes" then addIsotope "Helium Isotopes" q need
  else if String.eqb n "nitrogen isotopes" then addIsotope "Nitrogen Isotopes" q need
  else if String.eqb n "oxygen isotopes" then addIsotope "Oxygen Isotopes" q need
  else if String.eqb n "hydrogen isotopes" then addIsotope "Hydrogen Isotopes" q need
  else need.

Definition iceNeed (rawTotals : list RawTotal) : IceNeed :=
  fold_left addNeed rawTotals noNeed.

Record PlanRow := { iceName : string; blocks : Z; covers : string }.

(** [plan] and the three [produced...] counters. *)
Record Mined := {
  plan : list PlanRow;
  producedHW : Z;
  producedLO : Z;
  producedStront : Z
}.

(** Step 1, the body of the loop over [Object.entries(ICE_YIELDS)]. *)
Definition mineIsotopeIce (need : IceNeed) (acc : Mined)
    (entry : string * IceYield) : Mined :=
  let '(ice, y) := entry in
  match isotope y with
  | None => acc
  | Some iso =>
      let req := orNum (default 0 (JsMap.get iso (needIsotopes need))) 0 in
      if req <=? 0 then acc
      else
        let b := Js.ceil_div req (Z.max 1 (orNum (isotopeQty y) 1)) in
        if b <=? 0 then acc
        else
          {| plan := plan acc ++ [{| iceName := ice; blocks := b; covers := iso |}];
             producedHW := producedHW acc + b * orNum (heavyWater y) 0;
             producedLO := producedLO acc + b * orNum (liquidOzone y) 0;
             producedStront := producedStront acc + b * orNum (strontium y) 0 |}
  end.

(** The blocks of one standard ice that cover what remains. *)
Definition topUpBlocks (remHW remLO remStront : Z) (y : IceYield) : Z :=
  Z.max
    (Z.max
       (if 0 <? remHW
        then Js.ceil_div remHW (Z.max 1 (orNum (heavyWater y) 1)) else 0)
       (if 0 <? remLO
        then Js.ceil_div remLO (Z.max 1 (orNum (liquidOzone y) 1)) else 0))
    (if 0 <? remStront
     then Js.ceil_div remStront (Z.max 1 (orNum (strontium y) 1)) else 0).

Definition standardNames : list string :=
  List.map fst
    (List.filter (fun e => match isotope (snd e) with
                           | None => true
                           | Some _ => false
                           end) ICE_YIELDS).

(** Step 2, the loop that keeps the first ice needing the fewest blocks;
    every name it looks up is a key of the table. *)
Definition pickBest (remHW remLO remStront : Z) : option (string * Z) :=
  fold_left
    (fun best n =>
       match JsMap.get n ICE_YIELDS with
       | Some y =>
           let b := topUpBlocks remHW remLO remStront y in
           match best with
           | None => Some (n, b)
           | Some (_, bestBlocks) => if b <? bestBlocks then Some (n, b) else best
           end
       | None => best
       end)
    standardNames None.

Definition computeIceEquivalents (rawTotals : list RawTotal) : list PlanRow :=
  let need := iceNeed rawTotals in
  let m := fold_left (mineIsotopeIce need) ICE_YIELDS
             {| plan := []; producedHW := 0; producedLO := 0; producedStront := 0 |} in
  let remHW := Z.max 0 (needHeavyWater need - producedHW m) in
  let remLO := Z.max 0 (needLiquidOzone need - producedLO m) in
  let remStront := Z.max 0 (needStrontium need - producedStront m) in
  let plan :=
    if ((0 <? remHW) || (0 <? remLO) || (0 <? remStront))%bool then
      match pickBest remHW remLO remStront with
      | Some (best, b) =>
          if 0 <? b
          then plan m ++ [{| iceName := best; blocks := b;
                             covers := "HW/LO/Stront top‑up" |}]
          else plan m
      | None => plan m
      end
    else plan m in
  js_sort (fun a b => blocks b <=? blocks a) plan.

(** *** Reference notions *)

(** The yields of an ice by name; nothing for a name that is not in the
    table. *)
Definition iceYield (ice : string) : IceYield :=
  default {| heavyWater := 0; liquidOzone := 0; strontium := 0;
             isotope := None; isotopeQty := 0 |}
    (JsMap.get ice ICE_YIELDS).

(** What a plan yields of the product measured by [f]. *)
Definition mined (f : IceYield -> Z) (p : list PlanRow) : Z :=
  foldr (fun row acc => blocks row * f (iceYield (iceName row)) + acc) 0 p.

Definition isotopeYield (iso : string) (y : IceYield) : Z :=
  if decide (isotope y = Some iso) then isotopeQty y else 0.

(** The fuel of 40 fuel blocks: isotopes and the three common products. *)
Definition fuelNeeds : list RawTotal :=
  [ {| typeId := Some 16274; name := "Helium Isotopes"; qty := 1000 |};
    {| typeId := Some 16272; name := "Heavy Water"; qty := 5000 |};
    {| typeId := Some 16273; name := "Liquid Ozone"; qty := 400 |};
    {| typeId := Some 34; name := "Tritanium"; qty := 70 |} ].

(** A row of a plan is sound when it asks for a positive number of blocks
    of an ice of the table. *)
Definition planRowOk (row : PlanRow) : Prop :=
  0 < blocks row /\ is_Some (JsMap.get (iceName row) ICE_YIELDS).

(** The yields of a table entry are not negative. *)
Definition yieldOk (y : IceYield) : Prop :=
  0 <= heavyWater y /\ 0 <= liquidOzone y /\ 0 <= strontium y
  /\ 0 <= isotopeQty y.

(** The quantity of the rows named [n], letter case aside. *)
Definition demand (n : string) (rawTotals : list RawTotal) : Z :=
  foldr (fun r acc => if String.eqb (Js.toLowerCase (name r)) n
                      then qty r + acc else acc)
        0 rawTotals.

(** ** Static data *)

(** An entry of [BOOSTER_FAMILIES] or of [boosters.families]. *)
Record Family := { family : string; familyShade : string }.

(** An entry of [TIERS] or of [boosters.tiers]; [tierName] is the optional
    field [tier], the empty string when it is absent. *)
Record Tier := {
  tierKey : string;
  tierName : string;
  tierLabel : string;
  tierPrefix : string;
  tierIsPure : bool
}.

Definition BOOSTER_FAMILIES : list Family :=
  [ {| family := "Blue Pill"; familyShade := "amber" |};
    {| family := "Exile"; familyShade := "celadon" |};
    {| family := "Mindflood"; familyShade := "malachite" |};
    {| family := "X-Instinct"; familyShade := "vermillion" |};
    {| family := "Drop"; familyShade := "viridian" |};
    {| family := "Frentix"; familyShade := "lime" |};
    {| family := "Sooth Sayer"; familyShade := "azure" |};
    {| family := "Crash"; familyShade := "golden" |} ].

Definition TIERS : list Tier :=
  [ {| tierKey := "synth"; tierName := ""; tierLabel := "Synth";
       tierPrefix := "Synth"; tierIsPure := false |};
    {| tierKey := "standard"; tierName := ""; tierLabel := "Standard";
       tierPrefix := "Standard"; tierIsPure := false |};
    {| tierKey := "improved"; tierName := ""; tierLabel := "Improved";
       tierPrefix := "Improved"; tierIsPure := false |};
    {| tierKey := "strong"; tierName := ""; tierLabel := "Strong";
       tierPrefix := "Strong"; tierIsPure := false |};
    {| tierKey := "pure_synth"; tierName := ""; tierLabel := "Pure Synth";
       tierPrefix := "Pure Synth"; tierIsPure := true |};
    {| tierKey := "pure_standard"; tierName := ""; tierLabel := "Pure Standard";
       tierPrefix := "Pure Standard"; tierIsPure := true |};
    {| tierKey := "pure_improved"; tierName := ""; tierLabel := "Pure Improved";
       tierPrefix := "Pure Improved"; tierIsPure := true |};
    {| tierKey := "pure_strong"; tierName := ""; tierLabel := "Pure Strong";
       tierPrefix := "Pure Strong"; tierIsPure := true |} ].

(** An entry of [state.boosterItems]. *)
Record BoosterItem := {
  b_key : string;
  b_name : string;
  b_family : string;
  b_shade : string;
  b_tierKey : string;
  b_tierLabel : string;
  b_isPure : bool;
  b_typeId : option Z
}.

(** The object pushed by the inner loop of [loadStaticData]. *)
Definition boosterItem (fam : Family) (t : Tier) : BoosterItem :=
  {| b_key := String.append (tierKey t) (String.append ":" (family fam));
     b_name :=
       String.append (tierPrefix t)
         (String.append " " (String.append (family fam) " Booster"));
     b_family := family fam;
     b_shade := familyShade fam;
     b_tierKey := tierKey t;
     b_tierLabel := Js.or_string (tierName t) (tierLabel t);
     b_isPure := tierIsPure t;
     b_typeId := None |}.

(** [state.boosterItems] after [loadStaticData]: the families in the outer
    loop, the tiers in the inner one; a list missing from [boosters.json]
    is replaced by its constant. *)
Definition boosterItems (families : option (list Family))
    (tiers : option (list Tier)) : list BoosterItem :=
  flat_map (fun fam => List.map (boosterItem fam) (default TIERS tiers))
           (default BOOSTER_FAMILIES families).

(** * Properties *)

(** ** [JsMap] *)

Section JsMapFacts.
Context {K V : Type} `{EqDecision K}.
Implicit Types (k : K) (v : V) (m : list (K * V)).

Lemma get_set_eq k v m : JsMap.get k (JsMap.set k v m) = Some v.
Proof.
  induction m as [|[k' v'] m IH]; simpl.
  - destruct (decide (k = k)); congruence.
  - destruct (decide (k = k')) as [->|Hne]; simpl.
    + destruct (decide (k' = k')); congruence.
    + destruct (decide (k = k')); congruence.
Qed.

Lemma get_set_ne k k' v m :
  k <> k' -> JsMap.get k' (JsMap.set k v m) = JsMap.get k' m.
Proof.
  intros Hne. induction m as [|[k0 v0] m IH]; simpl.
  - destruct (decide (k' = k)); congruence.
  - destruct (decide (k = k0)) as [->|Hk]; simpl.
    + destruct (decide (k' = k0)); congruence.
    + destruct (decide (k' = k0)); congruence.
Qed.

Lemma get_Some_elem k v m : JsMap.get k m = Some v -> (k, v) ∈ m.
Proof.
  induction m as [|[k' v'] m IH]; simpl; [discriminate|].
  destruct (decide (k = k')) as [->|Hne].
  - intros [= ->]. left.
  - intros H0. right. auto.
Qed.

Lemma get_None_keys k m : JsMap.get k m = None <-> k ∉ JsMap.keys m.
Proof.
  unfold JsMap.keys. induction m as [|[k' v'] m IH]; simpl.
  - split; [intros _; apply not_elem_of_nil | reflexivity].
  - rewrite not_elem_of_cons. destruct (decide (k = k')) as [->|Hne].
    + split; [discriminate | intros [H0 _]; congruence].
    + rewrite IH. tauto.
Qed.

Lemma elem_get k v m :
  NoDup (JsMap.keys m) -> (k, v) ∈ m -> JsMap.get k m = Some v.
Proof.
  unfold JsMap.keys. induction m as [|[k' v'] m IH]; simpl.
  - intros _ H0. now apply elem_of_nil in H0.
  - rewrite NoDup_cons, elem_of_cons. intros [Hnotin Hnd] [Heq|Hin].
    + injection Heq as -> ->. destruct (decide (k' = k')); congruence.
    + destruct (decide (k = k')) as [->|Hne]; [|auto].
      exfalso. apply Hnotin. apply list_elem_of_fmap. now exists (k', v).
Qed.

Lemma keys_set k v m :
  JsMap.keys (JsMap.set k v m) =
  match JsMap.get k m with
  | Some _ => JsMap.keys m
  | None => JsMap.keys m ++ [k]
  end.
Proof.
  unfold JsMap.keys. induction m as [|[k' v'] m IH]; [reflexivity|].
  cbn [JsMap.set JsMap.get].
  destruct (decide (k = k')) as [->|Hne]; [reflexivity|].
  rewrite !fmap_cons, IH. now destruct (JsMap.get k m).
Qed.

Lemma NoDup_keys_set k v m :
  NoDup (JsMap.keys m) -> NoDup (JsMap.keys (JsMap.set k v m)).
Proof.
  intros Hnd. rewrite keys_set. destruct (JsMap.get k m) eqn:Hg; [assumption|].
  apply get_None_keys in Hg.
  apply NoDup_app. repeat split; auto.
  - intros x Hx Hk. apply list_elem_of_singleton in Hk. congruence.
  - apply NoDup_singleton.
Qed.

End JsMapFacts.

(** ** The expansion walk *)

Lemma shouldExpand_at_limit n depth maxDepth :
  maxDepth <= depth -> shouldExpandMaterial n depth maxDepth = false.
Proof.
  intros Hle. unfold shouldExpandMaterial.
  destruct (depth >=? maxDepth) eqn:E; [reflexivity | lia].
Qed.

Lemma shouldExpand_below n depth maxDepth :
  shouldExpandMaterial n depth maxDepth = true -> depth < maxDepth.
Proof.
  unfold shouldExpandMaterial.
  destruct (depth >=? maxDepth) eqn:E; [discriminate | lia].
Qed.

Lemma fold_option_total {A S : Type} (f : A -> S -> option S) (l : list A) :
  (forall a s, is_Some (f a s)) ->
  forall s, is_Some (fold_left (fun acc a => match acc with
                                             | Some s => f a s
                                             | None => None
                                             end) l (Some s)).
Proof.
  intros Hf. induction l as [|a l IH]; intros s; simpl; [eauto|].
  destruct (Hf a s) as [s' ->]. apply IH.
Qed.

(** [maxDepth - depth + 1] levels of recursion are enough: the walk
    returns. *)
Lemma walk_total fb maxDepth fuel :
  forall tid runs depth st,
    (Z.to_nat (maxDepth - depth) < fuel)%nat ->
    is_Some (walk fb maxDepth fuel tid runs depth st).
Proof.
  induction fuel as [|fuel IH]; intros tid runs depth st Hfuel; [lia|].
  simpl. destruct tid as [t|]; [|eauto].
  destruct (decide ((t, depth) ∈ visited st)); [eauto|].
  destruct (fb (Some t)) as [bp|]; [|eauto].
  destruct (pickBlueprintActivity bp) as [act|]; [|eauto].
  destruct (activityLines bp act) as [|m mats]; [eauto|].
  apply fold_option_total. intros m' s. unfold walkLine.
  destruct (shouldExpandMaterial _ _ _) eqn:Hexp; [|eauto].
  apply shouldExpand_below in Hexp.
  destruct (fb (lineTypeId m')) as [cbp|]; [|eauto].
  destruct (pickBlueprintActivity cbp); [|eauto].
  apply IH. lia.
Qed.

Lemma expand_total fb maxDepth tid runs :
  is_Some (expandToRawTotals fb maxDepth tid runs).
Proof.
  unfold expandToRawTotals.
  destruct (walk_total fb maxDepth (S (Z.to_nat maxDepth)) tid runs 0 emptyWalk)
    as [st ->]; [|eauto].
  replace (maxDepth - 0) with maxDepth by lia. lia.
Qed.

(** Every map the walk builds has one entry per key. *)
Lemma record_NoDup k n q st :
  NoDup (JsMap.keys (totals st)) ->
  NoDup (JsMap.keys (totals (record k n q st))).
Proof. intros Hnd. simpl. now apply NoDup_keys_set. Qed.

Lemma fold_option_inv {A S : Type} (P : S -> Prop)
    (f : A -> S -> option S) (l : list A) :
  (forall a s s', P s -> f a s = Some s' -> P s') ->
  forall s s', P s ->
    fold_left (fun acc a => match acc with
                            | Some s => f a s
                            | None => None
                            end) l (Some s) = Some s' ->
    P s'.
Proof.
  intros Hf. induction l as [|a l IH]; intros s s' Hs; simpl.
  - now intros [= <-].
  - destruct (f a s) as [s1|] eqn:E.
    + apply IH. eapply Hf; eauto.
    + intros Hnone. exfalso. clear -Hnone.
      induction l as [|b l IHl]; simpl in Hnone; [discriminate | auto].
Qed.

Lemma walk_NoDup fb maxDepth fuel :
  forall tid runs depth st st',
    NoDup (JsMap.keys (totals st)) ->
    walk fb maxDepth fuel tid runs depth st = Some st' ->
    NoDup (JsMap.keys (totals st')).
Proof.
  induction fuel as [|fuel IH]; intros tid runs depth st st' Hnd; [discriminate|].
  simpl. destruct tid as [t|]; [|now intros [= <-]].
  destruct (decide ((t, depth) ∈ visited st));
    [intros [= <-]; now apply record_NoDup|].
  destruct (fb (Some t)) as [bp|];
    [|intros [= <-]; now apply record_NoDup].
  destruct (pickBlueprintActivity bp) as [act|];
    [|intros [= <-]; now apply record_NoDup].
  destruct (activityLines bp act) as [|m mats];
    [intros [= <-]; now apply record_NoDup|].
  apply (fold_option_inv (fun s => NoDup (JsMap.keys (totals s)))); [|exact Hnd].
  intros m' s s' Hs. unfold walkLine.
  destruct (shouldExpandMaterial _ _ _);
    [|intros [= <-]; now apply record_NoDup].
  destruct (fb (lineTypeId m')) as [cbp|];
    [|intros [= <-]; now apply record_NoDup].
  destruct (pickBlueprintActivity cbp);
    [|intros [= <-]; now apply record_NoDup].
  now apply IH.
Qed.

(** What the closing loop lets through. *)
Lemma elem_surfaced ts e :
  e ∈ surfaced ts <->
  exists k t, (k, t) ∈ ts /\ 0 < t_qty t
              /\ e = {| typeId := k; name := t_name t; qty := t_qty t |}.
Proof.
  unfold surfaced. rewrite list_elem_of_omap. split.
  - intros [[k t] [Hin Hsome]]. simpl in Hsome.
    destruct (0 <? t_qty t) eqn:E; [|discriminate].
    injection Hsome as <-. exists k, t. repeat split; auto. lia.
  - intros [k [t [Hin [Hpos ->]]]]. exists (k, t). split; [assumption|].
    simpl. destruct (0 <? t_qty t) eqn:E; [reflexivity | lia].
Qed.

Lemma surfaced_positive ts e : e ∈ surfaced ts -> 0 < qty e.
Proof. rewrite elem_surfaced. intros [k [t [_ [Hpos ->]]]]. exact Hpos. Qed.

Lemma surfaced_keys_sublist ts : sublist (typeId <$> surfaced ts) (JsMap.keys ts).
Proof.
  unfold surfaced, JsMap.keys. induction ts as [|[k t] ts IH]; simpl; [constructor|].
  destruct (0 <? t_qty t); simpl.
  - now constructor.
  - now constructor.
Qed.

Lemma surfaced_NoDup ts :
  NoDup (JsMap.keys ts) -> NoDup (typeId <$> surfaced ts).
Proof. intros Hnd. eapply sublist_NoDup; [exact Hnd | apply surfaced_keys_sublist]. Qed.

(** *** No expansion: [maxDepth <= depth] *)

Lemma walkLine_leaf fb maxDepth w' runs depth m st :
  maxDepth <= depth ->
  walkLine fb maxDepth w' runs depth m st
  = Some (record (lineTypeId m) (lineName m) (linePerRun m * runs) st).
Proof.
  intros Hle. unfold walkLine. now rewrite shouldExpand_at_limit.
Qed.

Lemma walkLines_leaves fb maxDepth w' runs depth mats :
  maxDepth <= depth ->
  forall st,
    walkLines fb maxDepth w' runs depth mats st = Some (recordLines runs mats st).
Proof.
  intros Hle. unfold walkLines, recordLines.
  induction mats as [|m mats IH]; intros st; simpl; [reflexivity|].
  rewrite walkLine_leaf by assumption. apply IH.
Qed.

Lemma qtyOf_record k n q st k' :
  qtyOf (JsMap.get k' (totals (record k n q st)))
  = if decide (k = k') then qtyOf (JsMap.get k' (totals st)) + q
    else qtyOf (JsMap.get k' (totals st)).
Proof.
  simpl. destruct (decide (k = k')) as [<-|Hne].
  - rewrite get_set_eq. now destruct (JsMap.get k (totals st)).
  - now rewrite get_set_ne.
Qed.

Lemma is_Some_record k n q st k' :
  is_Some (JsMap.get k' (totals (record k n q st)))
  <-> is_Some (JsMap.get k' (totals st)) \/ k' = k.
Proof.
  simpl. destruct (decide (k = k')) as [<-|Hne].
  - rewrite get_set_eq. split; [intros _; now right | eauto].
  - rewrite get_set_ne by assumption. split; [tauto|].
    intros [H0|H0]; [assumption | congruence].
Qed.

Lemma lineDemand_cons runs k m mats :
  lineDemand runs k (m :: mats)
  = if decide (lineTypeId m = k)
    then linePerRun m * runs + lineDemand runs k mats
    else lineDemand runs k mats.
Proof. reflexivity. Qed.

Lemma recordLines_qty runs mats :
  forall st k,
    qtyOf (JsMap.get k (totals (recordLines runs mats st)))
    = qtyOf (JsMap.get k (totals st)) + lineDemand runs k mats.
Proof.
  induction mats as [|m mats IH]; intros st k.
  - simpl. unfold lineDemand. simpl. lia.
  - change (recordLines runs (m :: mats) st)
      with (recordLines runs mats
              (record (lineTypeId m) (lineName m) (linePerRun m * runs) st)).
    rewrite IH, qtyOf_record, lineDemand_cons.
    destruct (decide (lineTypeId m = k)); lia.
Qed.

Lemma recordLines_is_Some runs mats :
  forall st k,
    is_Some (JsMap.get k (totals (recordLines runs mats st)))
    <-> is_Some (JsMap.get k (totals st)) \/ k ∈ lineTypeId <$> mats.
Proof.
  induction mats as [|m mats IH]; intros st k.
  - simpl. rewrite elem_of_nil. tauto.
  - change (recordLines runs (m :: mats) st)
      with (recordLines runs mats
              (record (lineTypeId m) (lineName m) (linePerRun m * runs) st)).
    rewrite IH, is_Some_record, fmap_cons, elem_of_cons. tauto.
Qed.

Lemma recordLines_NoDup runs mats :
  forall st,
    NoDup (JsMap.keys (totals st)) ->
    NoDup (JsMap.keys (totals (recordLines runs mats st))).
Proof.
  induction mats as [|m mats IH]; intros st Hnd; [exact Hnd|].
  apply IH. now apply record_NoDup.
Qed.

(** The entries that surface from a map built by [recordLines] alone. *)
Lemma surfaced_recordLines runs mats v k q :
  let ts := totals (recordLines runs mats {| totals := []; visited := v |}) in
  (exists n, {| typeId := k; name := n; qty := q |} ∈ surfaced ts)
  <-> (k ∈ lineTypeId <$> mats /\ q = lineDemand runs k mats /\ 0 < q).
Proof.
  intros ts.
  assert (Hnd : NoDup (JsMap.keys ts)).
  { apply recordLines_NoDup. simpl. constructor. }
  pose proof (recordLines_qty runs mats {| totals := []; visited := v |} k) as Hq.
  pose proof (recordLines_is_Some runs mats {| totals := []; visited := v |} k) as Hs.
  fold ts in Hq, Hs. simpl in Hq, Hs. split.
  - intros [n Hin]. apply elem_surfaced in Hin.
    destruct Hin as [k' [t [Hin [Hpos Heq]]]]. injection Heq as -> -> ->.
    apply elem_get in Hin; [|exact Hnd]. rewrite Hin in Hq, Hs. simpl in Hq.
    split; [|split; [lia | exact Hpos]].
    destruct Hs as [Hs _]. destruct Hs as [[x Hx]|Hk]; eauto. discriminate.
  - intros [Hk [-> Hpos]]. destruct Hs as [_ Hs].
    destruct Hs as [t Ht]; [now right|]. rewrite Ht in Hq. simpl in Hq.
    exists (t_name t). apply elem_surfaced. exists k, t.
    split; [now apply get_Some_elem|]. split; [lia|]. f_equal. lia.
Qed.

Lemma expand_depth0_unfold fb tid runs :
  expandToRawTotals fb 0 (Some tid) runs
  = Some (surfaced
            (totals
               (match directLines fb (Some tid) with
                | [] =>
                    record (Some tid)
                      (match fb (Some tid) with
                       | Some bp => productLabel bp (Some tid)
                       | None => typeLabel (Some tid)
                       end) 0 (visit tid 0 emptyWalk)
                | mats => recordLines runs mats (visit tid 0 emptyWalk)
                end))).
Proof.
  unfold expandToRawTotals, directLines. simpl.
  destruct (decide ((tid, 0) ∈ (∅ : gset (Z * Z)))) as [Hin|_];
    [now apply not_elem_of_empty in Hin|].
  destruct (fb (Some tid)) as [bp|]; [|reflexivity].
  destruct (pickBlueprintActivity bp) as [act|]; [|reflexivity].
  destruct (activityLines bp act) as [|m mats]; [reflexivity|].
  now rewrite walkLines_leaves by lia.
Qed.

(** C1 (amended).  With [maxDepth = 0], [expandToRawTotals] returns, for
    every recipe and every run count, a list with at most one entry per
    Identifier, and an Identifier [k] has an entry with quantity [q] exactly
    when [k] is the input of some direct line of the chosen activity, [q] is
    the sum of [quantityPerRun × runs] over the lines whose input is [k],
    and [q > 0]: lines whose summed quantity is zero get no entry. *)
Theorem expand_depth0_positive_lines fb tid runs :
  exists out,
    expandToRawTotals fb 0 (Some tid) runs = Some out
    /\ NoDup (typeId <$> out)
    /\ forall k q,
         (exists n, {| typeId := k; name := n; qty := q |} ∈ out)
         <-> (k ∈ lineTypeId <$> directLines fb (Some tid)
              /\ q = lineDemand runs k (directLines fb (Some tid))
              /\ 0 < q).
Proof.
  rewrite expand_depth0_unfold. eexists. split; [reflexivity|].
  destruct (directLines fb (Some tid)) as [|m mats] eqn:Hlines.
  - split; [apply surfaced_NoDup; simpl; apply NoDup_singleton|].
    intros k q. simpl. split.
    + intros [n Hin]. now apply elem_of_nil in Hin.
    + intros [Hin _]. now apply elem_of_nil in Hin.
  - split.
    + apply surfaced_NoDup, recordLines_NoDup. simpl. constructor.
    + intros k q. apply (surfaced_recordLines runs (m :: mats)).
Qed.

(** C1 as stated fails: a line with quantity 0 gets no entry. *)
Lemma expand_depth0_drops_zero_line :
  exists out,
    expandToRawTotals recipeWithZeroLine 0 (Some 1) 3 = Some out
    /\ ~ oneEntryPerLine (directLines recipeWithZeroLine (Some 1)) 3 out.
Proof.
  exists [{| typeId := Some 34; name := "Tritanium"; qty := 15 |}].
  split; [reflexivity|]. intros Hall.
  destruct (Hall (material 35 "Pyerite" 0)) as [e [Hin [Hid _]]].
  - vm_compute. right. left.
  - apply list_elem_of_singleton in Hin. subst e. discriminate Hid.
Qed.

(** *** The cycle guard *)

Lemma walk_revisit fb maxDepth fuel t runs depth st :
  (t, depth) ∈ visited st ->
  walk fb maxDepth (S fuel) (Some t) runs depth st
  = Some (record (Some t) (typeLabel (Some t)) 0 st).
Proof.
  intros Hin. simpl. destruct (decide ((t, depth) ∈ visited st)); tauto.
Qed.

Lemma placeholder_qty k n st :
  qtyOf (JsMap.get k (totals (record k n 0 st))) = qtyOf (JsMap.get k (totals st))
  /\ visited (record k n 0 st) = visited st.
Proof.
  split; [|reflexivity]. rewrite qtyOf_record.
  destruct (decide (k = k)); [lia | congruence].
Qed.

Lemma zero_total_hidden ts k :
  NoDup (JsMap.keys ts) -> qtyOf (JsMap.get k ts) = 0 ->
  forall e, e ∈ surfaced ts -> typeId e <> k.
Proof.
  intros Hnd Hzero e Hin Heq. apply elem_surfaced in Hin.
  destruct Hin as [k' [t [Hin [Hpos ->]]]]. simpl in Heq. subst k'.
  apply elem_get in Hin; [|exact Hnd]. rewrite Hin in Hzero. simpl in Hzero. lia.
Qed.



(** A recipe whose line names the root: the walk meets the root again at
    depths 1 and 2, where the pair is new, and stops at [maxDepth]. *)
Lemma self_reference_terminates :
  expandToRawTotals selfReferencing 2 (Some 1) 1
  = Some [{| typeId := Some 1; name := "Strong Exile Booster"; qty := 1 |};
          {| typeId := Some 5; name := "Gas"; qty := 9 |}].
Proof. vm_compute. reflexivity. Qed.

(** *** Children that turn out to be leaves *)

(** A line that qualifies for expansion but whose child cannot be fetched,
    or has no activity, is recorded with its full demand. *)
Lemma walkLine_child_without_activity fb maxDepth w' runs depth m st :
  (fb (lineTypeId m) = None
   \/ exists bp, fb (lineTypeId m) = Some bp /\ pickBlueprintActivity bp = None) ->
  walkLine fb maxDepth w' runs depth m st
  = Some (record (lineTypeId m) (lineName m) (linePerRun m * runs) st).
Proof.
  intros Hchild. unfold walkLine.
  destruct (shouldExpandMaterial _ _ _); [|reflexivity].
  destruct Hchild as [->|[bp [-> ->]]]; reflexivity.
Qed.

(** C3 at the failing input.  Type 1 needs 10 "Gear Booster" (type 2),
    whose chosen activity has no input lines: the walk enters type 2 and
    records quantity 0 for it, so the demand of 10 is lost and nothing
    surfaces. *)
Theorem child_without_lines_loses_demand :
  exists st,
    walk childWithoutLines 1 2 (Some 1) 1 0 emptyWalk = Some st
    /\ totals st = [(Some 2, {| t_name := "Gear Booster"; t_qty := 0 |})]
    /\ expandToRawTotals childWithoutLines 1 (Some 1) 1 = Some [].
Proof. eexists. split; [vm_compute; reflexivity|]. split; reflexivity. Qed.

(** ** Fetch + caching *)

Lemma last_cons_default {A} (l : list A) :
  forall x d d', List.last (x :: l) d = List.last (x :: l) d'.
Proof.
  induction l as [|a l IH]; intros x d d'; [reflexivity|].
  change (List.last (a :: l) d = List.last (a :: l) d'). apply IH.
Qed.

Section FetchFacts.
Context {Json : Type}.
Variable JSON_parse : string -> option Json.
Variable network : Z -> string -> N * HttpReply.

Lemma fetchJson_cases url ttlMs (w : World) :
  (exists d, cacheHit ttlMs (clock w) (memCache w !! cacheKey url) = Some d
             /\ fetchJson JSON_parse network url ttlMs w = (Returned d, w))
  \/ (cacheHit ttlMs (clock w) (memCache w !! cacheKey url) = None
      /\ let w1 := elapse (Z.of_N (network (clock w) url).1) (logRequest url w) in
         (exists e, fetchJson JSON_parse network url ttlMs w = (Thrown e, w1))
         \/ (exists d, fetchJson JSON_parse network url ttlMs w
                       = (Returned d,
                          cacheSet (cacheKey url) {| time := clock w; data := d |} w1))).
Proof.
  unfold fetchJson.
  destruct (cacheHit ttlMs (clock w) (memCache w !! cacheKey url)) as [d|] eqn:Hhit.
  - left. eauto.
  - right. split; [reflexivity|].
    destruct (network (clock w) url) as [latency reply]. simpl.
    destruct reply as [|ok status txt]; [left; eauto|].
    destruct ok; simpl; [|left; eauto].
    destruct (JSON_parse txt) as [d|]; [right|left]; eauto.
Qed.

(** The clock never runs backwards during a fetch. *)
Lemma fetchJson_clock url ttlMs (w : World) :
  clock w <= clock (fetchJson JSON_parse network url ttlMs w).2.
Proof.
  destruct (fetchJson_cases url ttlMs w) as [[d [_ ->]]|[_ [[e ->]|[d ->]]]];
    simpl; lia.
Qed.

(** C6.  When [fetchJson] fails (the request is rejected, the status is
    not a success, or the body does not parse) [memCache] is exactly what it
    was, so an entry stored earlier for the URL is still there; when it
    succeeds, the cache is either untouched (a fresh hit) or extended by the
    one entry for this URL, stamped with the time of the call. *)
Theorem fetchJson_failure_keeps_cache url ttlMs (w w' : World) :
  (forall e,
      fetchJson JSON_parse network url ttlMs w = (Thrown e, w') ->
      memCache w' = memCache w)
  /\ (forall d,
        fetchJson JSON_parse network url ttlMs w = (Returned d, w') ->
        memCache w' = memCache w
        \/ memCache w'
           = <[cacheKey url := {| time := clock w; data := d |}]> (memCache w)).
Proof.
  split.
  - intros e Hf.
    destruct (fetchJson_cases url ttlMs w) as [[d [_ H0]]|[_ [[e' H0]|[d H0]]]];
      rewrite H0 in Hf; try discriminate.
    injection Hf as _ <-. reflexivity.
  - intros d Hf.
    destruct (fetchJson_cases url ttlMs w) as [[d' [_ H0]]|[_ [[e' H0]|[d' H0]]]];
      rewrite H0 in Hf; try discriminate.
    + injection Hf as _ <-. now left.
    + injection Hf as <- <-. now right.
Qed.

(** *** The throttled queue *)

Lemma adamFetchJson_times url ttlMs (w : World) :
  let '(s, w') := adamFetchJson JSON_parse network url ttlMs w in
  startedAt s = clock w
  /\ issuedAt s = clock w + Z.max 0 (5100 - (clock w - adamLastCallMs w))
  /\ issuedAt s <= settledAt s
  /\ settledAt s = clock w'.
Proof.
  unfold adamFetchJson.
  pose proof (fetchJson_clock url ttlMs
                (elapse (Z.max 0 (5100 - (clock w - adamLastCallMs w))) w)) as Hc.
  destruct (fetchJson JSON_parse network url ttlMs _) as [[d|e] w2];
    simpl in *; repeat split; lia.
Qed.

(** A call that succeeds stamps [adamLastCallMs] with its completion time;
    one that throws leaves the stamp as it was. *)
Lemma adamFetchJson_stamp url ttlMs (w : World) :
  let '(s, w') := adamFetchJson JSON_parse network url ttlMs w in
  match outcome s with
  | Returned _ => adamLastCallMs w' = settledAt s
  | Thrown _ => adamLastCallMs w' = adamLastCallMs w
  end.
Proof.
  unfold adamFetchJson.
  destruct (fetchJson_cases url ttlMs
              (elapse (Z.max 0 (5100 - (clock w - adamLastCallMs w))) w))
    as [[d [_ ->]]|[_ [[e ->]|[d ->]]]]; reflexivity.
Qed.

Lemma adamQueue_length calls :
  forall w : World, length (adamQueue JSON_parse network calls w).1 = length calls.
Proof.
  induction calls as [|[url ttlMs] rest IH]; intros w; simpl; [reflexivity|].
  destruct (adamFetchJson JSON_parse network url ttlMs w) as [s w1].
  specialize (IH w1).
  destruct (adamQueue JSON_parse network rest w1) as [ss w2]. simpl in *. lia.
Qed.


End FetchFacts.

(** A fetch that fails against an empty cache leaves it empty. *)
Lemma fetchJson_failure_keeps_cache_witness :
  memCache (fetchJson parseText unavailable "u" 0 (pageLoad 1700000000000)).2
  = memCache (pageLoad 1700000000000).
Proof.
  destruct (fetchJson_failure_keeps_cache parseText unavailable "u" 0
              (pageLoad 1700000000000)
              (fetchJson parseText unavailable "u" 0 (pageLoad 1700000000000)).2)
    as [Hfail _].
  apply (Hfail (HttpError 503 "u")). reflexivity.
Defined.

(** C4 at the failing input.  Two calls are queued on a fresh page while
    the source answers 503 after 250 ms: the first leaves 250 ms after it
    was issued, the second is issued at once and both have settled after
    500 ms, far less than the 5100 ms the claim demands between them. *)
Theorem adamQueue_failures_not_spaced :
  let ss := (adamQueue parseText unavailable [("a", 0); ("b", 0)]
               (pageLoad 1700000000000)).1 in
  (issuedAt <$> ss) = [1700000000000; 1700000000250]
  /\ (settledAt <$> ss) = [1700000000250; 1700000000500]
  /\ ~ spacedOut ss.
Proof.
  vm_compute. split; [reflexivity|]. split; [reflexivity|].
  intros Hle. apply Hle. reflexivity.
Qed.

(** C5 at the failing input.  A throttled call that fails with HTTP 503
    settles at 1700000000250; [adamLastCallMs] still holds 0. *)
Theorem adamFetchJson_failure_not_stamped :
  let '(s, w') := adamFetchJson parseText unavailable "a" 0 (pageLoad 1700000000000) in
  outcome s = Thrown (HttpError 503 "a")
  /\ settledAt s = 1700000000250
  /\ adamLastCallMs w' = 0.
Proof. vm_compute. repeat split. Qed.

(** ** TypeID resolution *)

Section ResolveFacts.
Context {Json : Type}.
Variable JSON_parse : string -> option Json.
Variable encodeURIComponent : string -> string.
Variable typeRows : Json -> option (list (option TypeRow)).
Variable network : Z -> string -> N * HttpReply.

(** Merging rows only adds or overwrites names. *)
Lemma mergeRows_keeps rows :
  forall (m : gmap string (option Z)) n,
    is_Some (m !! n) -> is_Some (mergeRows rows m !! n).
Proof.
  unfold mergeRows. induction rows as [|row rows IH]; intros m n Hn; [exact Hn|].
  simpl. apply IH. destruct row as [r|]; [|exact Hn].
  destruct (typeName r) as [|c s] eqn:Hname; [exact Hn|].
  destruct (Js.truthy (typeID r)); [|exact Hn].
  destruct (decide (String c s = n)) as [->|Hne].
  - rewrite lookup_insert_eq. eauto.
  - now rewrite lookup_insert_ne.
Qed.

Lemma resolveParts_keeps parts :
  forall (m m' : gmap string (option Z)) (w w' : World (Json := Json)) n,
    resolveParts JSON_parse encodeURIComponent typeRows network parts m w
    = (Returned m', w') ->
    is_Some (m !! n) -> is_Some (m' !! n).
Proof.
  induction parts as [|names rest IH]; intros m m' w w' n; simpl.
  - intros [= <- <-]. auto.
  - destruct (fetchJson JSON_parse network _ _ w) as [[d|e] w1]; [|discriminate].
    destruct (typeRows d) as [rows|]; [|discriminate].
    intros Hres Hn. eapply IH; [exact Hres|]. now apply mergeRows_keeps.
Qed.

Lemma filter_all_known (m : gmap string (option Z)) names :
  (forall n, n ∈ names -> known m n = true) ->
  List.filter (fun n => negb (known m n)) names = [].
Proof.
  induction names as [|n names IH]; intros Hall; [reflexivity|].
  simpl. rewrite (Hall n) by left. simpl. apply IH.
  intros n' Hn'. apply Hall. now right.
Qed.


End ResolveFacts.


(** ** Sorting *)

Lemma js_insert_perm {A} (le : A -> A -> bool) x l : js_insert le x l ≡ₚ x :: l.
Proof.
  induction l as [|y l IH]; simpl; [reflexivity|].
  destruct (le x y); [reflexivity|]. rewrite IH. apply Permutation_swap.
Qed.

Lemma js_sort_perm {A} (le : A -> A -> bool) l : js_sort le l ≡ₚ l.
Proof.
  induction l as [|x l IH]; simpl; [reflexivity|].
  rewrite js_insert_perm. now rewrite IH.
Qed.

(** ** Prices and the raw-materials table *)

Lemma render_fold agg totalRuns mode rows :
  forall tb totalCost,
    fold_left
      (fun '(tb, totalCost) r =>
         let tr := rawRow agg totalRuns mode r in
         (tb ++ [tr],
          match row_cost tr with
          | Some cost => (totalCost + cost)%Q
          | None => totalCost
          end))
      rows (tb, totalCost)
    = (tb ++ (rawRow agg totalRuns mode <$> rows),
       fold_left Qplus (omap row_cost (rawRow agg totalRuns mode <$> rows)) totalCost).
Proof.
  induction rows as [|r rows IH]; intros tb totalCost.
  - simpl. now rewrite app_nil_r.
  - cbn [fold_left]. rewrite IH, fmap_cons, <- app_assoc.
    set (tr := rawRow agg totalRuns mode r).
    change (omap row_cost (tr :: (rawRow agg totalRuns mode <$> rows)))
      with (match row_cost tr with
            | Some y => y :: omap row_cost (rawRow agg totalRuns mode <$> rows)
            | None => omap row_cost (rawRow agg totalRuns mode <$> rows)
            end).
    destruct (row_cost tr); reflexivity.
Qed.

Lemma renderRawMaterials_eq fuzzAgg rawTotals totalRuns hub mode :
  renderRawMaterials fuzzAgg rawTotals totalRuns hub mode
  = let tb := rawRow (default ∅ (fuzzAgg !! hub)) totalRuns mode
                <$> js_sort (fun a b => qty b <=? qty a) rawTotals in
    (tb, Qsum (omap row_cost tb)).
Proof. unfold renderRawMaterials. now rewrite render_fold. Qed.



(** A table with one priced and one unpriced line. *)
Lemma render_priced_and_unpriced :
  let '(tb, totalCost) :=
    renderRawMaterials jitaTritanium [pyerite7; tritanium15] 1 "jita" "sell_min" in
  (row_name <$> tb) = ["Tritanium"%string; "Pyerite"%string]
  /\ (row_cost <$> tb) = [Some ((9 # 2) * inject_Z 15)%Q; None]
  /\ (totalCost == 135 # 2)%Q
  /\ skipped tb = 1%nat.
Proof. vm_compute. repeat split. Qed.


(** ** Ordering by date *)

Lemma ascii_compare_refl c : Ascii.compare c c = Eq.
Proof. apply N.compare_refl. Qed.

Lemma string_leb_trans s1 :
  forall s2 s3,
    String.leb s1 s2 = true -> String.leb s2 s3 = true -> String.leb s1 s3 = true.
Proof.
  unfold String.leb.
  induction s1 as [|c1 t1 IH]; intros [|c2 t2] [|c3 t3]; simpl; try congruence.
  unfold Ascii.compare in *.
  destruct (N.compare_spec (N_of_ascii c1) (N_of_ascii c2)) as [E12|L12|G12];
    destruct (N.compare_spec (N_of_ascii c2) (N_of_ascii c3)) as [E23|L23|G23];
    try congruence.
  - rewrite E12, E23, N.compare_refl. apply IH.
  - intros _ _. rewrite E12.
    now destruct (N.compare_spec (N_of_ascii c2) (N_of_ascii c3)); try lia.
  - intros _ _. rewrite <- E23.
    now destruct (N.compare_spec (N_of_ascii c1) (N_of_ascii c2)); try lia.
  - intros _ _.
    now destruct (N.compare_spec (N_of_ascii c1) (N_of_ascii c3)); try lia.
Qed.

Section SortFacts.
Context {A : Type} (le : A -> A -> bool).
Hypothesis le_total : forall a b, le a b = true \/ le b a = true.
Hypothesis le_trans : forall a b c, le a b = true -> le b c = true -> le a c = true.

Lemma js_insert_sorted x l :
  StronglySorted (fun a b => le a b = true) l ->
  StronglySorted (fun a b => le a b = true) (js_insert le x l).
Proof.
  induction l as [|y l IH]; intros Hs; simpl.
  - repeat constructor.
  - inversion Hs as [|? ? Hs' Hall]; subst.
    destruct (le x y) eqn:Hxy.
    + constructor; [exact Hs|]. constructor; [exact Hxy|].
      eapply Forall_impl; [exact Hall|]. intros z Hz. simpl in *. eauto.
    + constructor; [now apply IH|].
      assert (Hyx : le y x = true) by (destruct (le_total x y); congruence).
      eapply Permutation_Forall; [symmetry; apply js_insert_perm|].
      now constructor.
Qed.

Lemma js_sort_sorted l : StronglySorted (fun a b => le a b = true) (js_sort le l).
Proof.
  induction l as [|x l IH]; simpl; [constructor | now apply js_insert_sorted].
Qed.

End SortFacts.

Lemma byDate_sorted rows :
  StronglySorted (fun a b => String.leb (price_date a) (price_date b) = true)
    (js_sort byDate rows).
Proof.
  apply (js_sort_sorted byDate).
  - intros a b. apply String.leb_total.
  - intros a b c. apply string_leb_trans.
Qed.

(** ** Trend statistics *)

Lemma Qltb_lt a b : Qltb a b = true <-> (a < b)%Q.
Proof.
  unfold Qltb. rewrite Qlt_alt. destruct (a ?= b)%Q; split; congruence.
Qed.

Lemma Qmin_cases a b : Qmin a b = a \/ Qmin a b = b.
Proof.
  unfold Qmin, GenericMinMax.gmin. destruct (a ?= b)%Q; auto.
Qed.

Lemma Qmax_cases a b : Qmax a b = a \/ Qmax a b = b.
Proof.
  unfold Qmax, GenericMinMax.gmax. destruct (a ?= b)%Q; auto.
Qed.

Lemma fold_Qmin_elem ps : forall p, fold_left Qmin ps p ∈ p :: ps.
Proof.
  induction ps as [|a ps IH]; intros p; simpl; [left|].
  specialize (IH (Qmin p a)). apply elem_of_cons in IH.
  destruct IH as [IH|IH].
  - rewrite IH. destruct (Qmin_cases p a) as [->| ->]; [left | right; left].
  - right. now right.
Qed.

Lemma fold_Qmax_elem ps : forall p, fold_left Qmax ps p ∈ p :: ps.
Proof.
  induction ps as [|a ps IH]; intros p; simpl; [left|].
  specialize (IH (Qmax p a)). apply elem_of_cons in IH.
  destruct IH as [IH|IH].
  - rewrite IH. destruct (Qmax_cases p a) as [->| ->]; [left | right; left].
  - right. now right.
Qed.

Lemma fold_Qmin_le ps :
  forall p x, x ∈ p :: ps -> (fold_left Qmin ps p <= x)%Q.
Proof.
  induction ps as [|a ps IH]; intros p x Hin; simpl.
  - apply list_elem_of_singleton in Hin. subst. apply Qle_refl.
  - apply elem_of_cons in Hin. destruct Hin as [->|Hin].
    + eapply Qle_trans; [apply IH; left | apply Q.le_min_l].
    + apply elem_of_cons in Hin. destruct Hin as [->|Hin].
      * eapply Qle_trans; [apply IH; left | apply Q.le_min_r].
      * apply IH. now right.
Qed.

Lemma fold_Qmax_ge ps :
  forall p x, x ∈ p :: ps -> (x <= fold_left Qmax ps p)%Q.
Proof.
  induction ps as [|a ps IH]; intros p x Hin; simpl.
  - apply list_elem_of_singleton in Hin. subst. apply Qle_refl.
  - apply elem_of_cons in Hin. destruct Hin as [->|Hin].
    + eapply Qle_trans; [apply Q.le_max_l | apply IH; left].
    + apply elem_of_cons in Hin. destruct Hin as [->|Hin].
      * eapply Qle_trans; [apply Q.le_max_r | apply IH; left].
      * apply IH. now right.
Qed.

(** The valid price points are the positive numeric ones. *)
Lemma elem_validPrices rows p :
  p ∈ validPrices rows
  <-> (exists r, r ∈ rows /\ rowPrice r = Some p) /\ (0 < p)%Q.
Proof.
  unfold validPrices. rewrite list_elem_of_In, filter_In, <- list_elem_of_In.
  rewrite list_elem_of_omap, Qltb_lt. reflexivity.
Qed.

Lemma percentChange_known a b :
  (0 < a)%Q -> percentChange (Some a) (Some b) = Some ((b - a) / a * 100)%Q.
Proof. intros Ha. unfold percentChange. apply Qltb_lt in Ha. now rewrite Ha. Qed.

Lemma percentChange_undefined p0 p1 :
  p0 = None \/ (exists a, p0 = Some a /\ (a <= 0)%Q) ->
  percentChange p0 p1 = None.
Proof.
  intros [->|[a [-> Ha]]]; [reflexivity|]. unfold percentChange.
  destruct p1 as [b|]; [|reflexivity].
  destruct (Qltb 0 a) eqn:E; [|reflexivity].
  apply Qltb_lt in E. exfalso. eapply Qlt_not_le; eauto.
Qed.

Lemma last_List_last {A} (l : list A) :
  forall x d, last (x :: l) = Some (List.last (x :: l) d).
Proof.
  induction l as [|a l IH]; intros x d; [reflexivity|].
  rewrite last_cons, (IH a d). reflexivity.
Qed.

(** What [seriesStats] computes, on the rows sorted by date. *)
Lemma seriesStats_spec rows s :
  seriesStats rows = Some s ->
  let sorted := js_sort byDate rows in
  let prices := validPrices sorted in
  s_first s = head sorted ≫= rowPrice
  /\ s_last s = last sorted ≫= rowPrice
  /\ s_min s ∈ prices /\ (forall p, p ∈ prices -> (s_min s <= p)%Q)
  /\ s_max s ∈ prices /\ (forall p, p ∈ prices -> (p <= s_max s)%Q)
  /\ (s_avg s * inject_Z (Z.of_nat (length prices)) == Qsum prices)%Q
  /\ s_pct s = percentChange (s_first s) (s_last s).
Proof.
  intros Hs. cbv zeta. unfold seriesStats in Hs.
  remember (js_sort byDate rows) as sorted eqn:Hsorted.
  remember (validPrices sorted) as prices eqn:Hprices.
  destruct sorted as [|first rest]; [discriminate|].
  destruct prices as [|p ps]; [discriminate|].
  injection Hs as <-. cbn [s_first s_last s_min s_max s_avg s_pct].
  split; [reflexivity|].
  split; [now rewrite (last_List_last rest first first)|].
  split; [apply fold_Qmin_elem|]. split; [apply fold_Qmin_le|].
  split; [apply fold_Qmax_elem|]. split; [apply fold_Qmax_ge|].
  split; [|reflexivity].
  unfold Qsum. change (fold_left Qplus ps (0 + p)%Q) with (fold_left Qplus (p :: ps) 0%Q).
  rewrite Qmult_comm. apply Qmult_div_r.
  unfold Qeq. simpl. lia.
Qed.

Lemma groupByType_NoDup data : NoDup (JsMap.keys (groupByType data)).
Proof.
  unfold groupByType.
  assert (Hgen : forall (acc : list (option Z * list HistoryRow)),
             NoDup (JsMap.keys acc) ->
             NoDup (JsMap.keys
                      (fold_left
                         (fun byType row =>
                            let tid := Js.Number (type_id row) in
                            JsMap.set tid
                              (default [] (JsMap.get tid byType) ++ [row]) byType)
                         data acc))).
  { induction data as [|row data IH]; intros acc Hnd; [exact Hnd|].
    simpl. apply IH. now apply NoDup_keys_set. }
  apply Hgen. constructor.
Qed.

(** A group whose series has no percent change writes nothing into
    [gasTrends7d]. *)
Lemma gasTrends_untouched groups tid :
  (forall rows s, (tid, rows) ∈ groups -> seriesStats rows = Some s -> s_pct s = None) ->
  forall st,
    JsMap.get tid
      (gasTrends7d
         (fold_left
            (fun st '(tid, rows) =>
               match seriesStats rows with
               | Some s =>
                   {| gasTrends7d := match s_pct s with
                                     | Some pct => JsMap.set tid pct (gasTrends7d st)
                                     | None => gasTrends7d st
                                     end;
                      gasStats7d := JsMap.set tid s (gasStats7d st);
                      boosterStats7d := boosterStats7d st |}
               | None => st
               end) groups st))
    = JsMap.get tid (gasTrends7d st).
Proof.
  induction groups as [|[k rows] groups IH]; intros Hnone st; [reflexivity|].
  cbn [fold_left]. rewrite IH.
  - destruct (seriesStats rows) as [s|] eqn:Hs; [|reflexivity]. simpl.
    destruct (s_pct s) as [pct|] eqn:Hpct; [|reflexivity].
    destruct (decide (k = tid)) as [->|Hne].
    + rewrite (Hnone rows s) in Hpct; [discriminate | left | exact Hs].
    + now apply get_set_ne.
  - intros rows' s' Hin. apply Hnone. now right.
Qed.

(** Each group stores its statistics under its own type ID. *)
Lemma stats_stored (proj : TrendState -> list (option Z * Stats))
    (step : TrendState -> option Z * list HistoryRow -> TrendState) :
  (forall st k rows,
      proj (step st (k, rows))
      = match seriesStats rows with
        | Some s => JsMap.set k s (proj st)
        | None => proj st
        end) ->
  forall groups tid rows s st,
    NoDup (JsMap.keys groups) -> (tid, rows) ∈ groups ->
    seriesStats rows = Some s ->
    JsMap.get tid (proj (fold_left step groups st)) = Some s.
Proof.
  intros Hstep.
  assert (Hkeep : forall groups tid st,
             tid ∉ JsMap.keys groups ->
             JsMap.get tid (proj (fold_left step groups st)) = JsMap.get tid (proj st)).
  { induction groups as [|[k r] groups IH]; intros tid st Hnotin; [reflexivity|].
    unfold JsMap.keys in Hnotin. rewrite fmap_cons, not_elem_of_cons in Hnotin.
    destruct Hnotin as [Hne Hnotin]. simpl in Hne.
    cbn [fold_left]. rewrite IH by exact Hnotin. rewrite Hstep.
    destruct (seriesStats r); [|reflexivity]. now apply get_set_ne. }
  induction groups as [|[k r] groups IH]; intros tid rows s st Hnd Hin Hs.
  - now apply elem_of_nil in Hin.
  - unfold JsMap.keys in Hnd. rewrite fmap_cons, NoDup_cons in Hnd.
    destruct Hnd as [Hnotin Hnd]. cbn [fold_left].
    apply elem_of_cons in Hin. destruct Hin as [Heq|Hin].
    + injection Heq as <- <-. rewrite Hkeep by exact Hnotin.
      rewrite Hstep, Hs. apply get_set_eq.
    + eapply IH; eauto.
Qed.

Lemma gasStats_stored data state tid rows s :
  (tid, rows) ∈ groupByType data -> seriesStats rows = Some s ->
  JsMap.get tid (gasStats7d (loadGasTrends7d data state)) = Some s.
Proof.
  intros Hin Hs. unfold loadGasTrends7d.
  eapply (stats_stored gasStats7d); eauto using groupByType_NoDup.
  intros st k r. now destruct (seriesStats r).
Qed.

Lemma boosterStats_stored data state tid rows s :
  (tid, rows) ∈ groupByType data -> seriesStats rows = Some s ->
  JsMap.get tid (boosterStats7d (loadBoosterStats7d data state)) = Some s.
Proof.
  intros Hin Hs. unfold loadBoosterStats7d.
  eapply (stats_stored boosterStats7d); eauto using groupByType_NoDup.
  intros st k r. now destruct (seriesStats r).
Qed.

Lemma gasTrends_absent data state tid rows s :
  (tid, rows) ∈ groupByType data -> seriesStats rows = Some s ->
  s_pct s = None ->
  JsMap.get tid (gasTrends7d (loadGasTrends7d data state))
  = JsMap.get tid (gasTrends7d state).
Proof.
  intros Hin Hs Hpct. unfold loadGasTrends7d. apply gasTrends_untouched.
  intros rows' s' Hin' Hs'.
  pose proof (groupByType_NoDup data) as Hnd.
  apply (elem_get _ _ _ Hnd) in Hin. apply (elem_get _ _ _ Hnd) in Hin'.
  congruence.
Qed.



(** ** The cost summary *)

Lemma inject_Z_nonzero z : 1 <= z -> ~ (inject_Z z == 0)%Q.
Proof. intros Hz. unfold Qeq. simpl. lia. Qed.

Lemma Qdiv_mul_cancel a z : 1 <= z -> (a / inject_Z z * inject_Z z == a)%Q.
Proof.
  intros Hz. rewrite Qmult_comm. apply Qmult_div_r. now apply inject_Z_nonzero.
Qed.



(** * Further properties of the code *)

(** ** [chunk] *)

Lemma chunk_from_spec {A} (size : nat) :
  (0 < size)%nat ->
  forall fuel (arr : list A),
    (length arr <= fuel)%nat ->
    concat (chunk_from fuel arr size) = arr
    /\ Forall (fun part => (0 < length part <= size)%nat) (chunk_from fuel arr size)
    /\ (length (chunk_from fuel arr size) * size < length arr + size)%nat.
Proof.
  intros Hsize. induction fuel as [|fuel IH]; intros arr Hlen.
  - destruct arr; [|simpl in Hlen; lia]. simpl.
    split; [reflexivity|]. split; [constructor | lia].
  - destruct arr as [|a arr];
      [simpl; split; [reflexivity|]; split; [constructor | lia]|].
    cbn [chunk_from].
    destruct (IH (drop size (a :: arr))) as [Hcat [Hall Hcount]].
    { rewrite length_drop. simpl in *. lia. }
    cbn [concat]. rewrite Hcat, take_drop. split; [reflexivity|]. split.
    + constructor; [|exact Hall]. rewrite length_take. simpl. lia.
    + rewrite length_drop in Hcount. cbn [length] in *.
      destruct (length (chunk_from fuel (drop size (a :: arr)) size));
        rewrite ?Nat.mul_succ_l in *; lia.
Qed.

(** [chunk] cuts a list into consecutive parts: glued back together they
    give the list, no part is empty or longer than [size], and there are no
    more parts than needed. *)
Theorem chunk_partitions {A} (arr : list A) (size : nat) :
  (0 < size)%nat ->
  concat (chunk arr size) = arr
  /\ Forall (fun part => (0 < length part <= size)%nat) (chunk arr size)
  /\ (length (chunk arr size) * size < length arr + size)%nat.
Proof. intros Hsize. now apply chunk_from_spec. Qed.

Lemma chunk_partitions_witness :
  concat (chunk [1; 2; 3; 4; 5] 2) = [1; 2; 3; 4; 5]
  /\ Forall (fun part => (0 < length part <= 2)%nat) (chunk [1; 2; 3; 4; 5] 2)
  /\ (length (chunk [1; 2; 3; 4; 5] 2) * 2 < 5 + 2)%nat.
Proof. apply (chunk_partitions [1; 2; 3; 4; 5] 2). lia. Defined.

(** ** [pickBlueprintActivity] *)

Lemma keys_head_get {V} (mats : list (string * V)) k rest :
  JsMap.keys mats = k :: rest -> is_Some (JsMap.get k mats).
Proof.
  destruct mats as [|[k' v] mats]; [discriminate|].
  unfold JsMap.keys. rewrite fmap_cons. simpl. intros [= -> _].
  destruct (decide (k = k)); [eauto | congruence].
Qed.



(** ** More on the expansion *)

(** Whatever the depth limit, the list [expandToRawTotals] returns names
    each Identifier at most once. *)
Theorem expand_identifiers_unique fb maxDepth tid runs :
  exists out,
    expandToRawTotals fb maxDepth tid runs = Some out
    /\ NoDup (typeId <$> out).
Proof.
  unfold expandToRawTotals.
  destruct (walk_total fb maxDepth (S (Z.to_nat maxDepth)) tid runs 0 emptyWalk)
    as [st Hst].
  { replace (maxDepth - 0) with maxDepth by lia. lia. }
  rewrite Hst. eexists. split; [reflexivity|].
  apply surfaced_NoDup. eapply walk_NoDup; [|exact Hst]. simpl. constructor.
Qed.

Lemma shouldExpand_qualifies n depth maxDepth :
  shouldExpandMaterial n depth maxDepth = ((depth <? maxDepth) && qualifies n)%bool.
Proof.
  unfold shouldExpandMaterial, qualifies.
  destruct (depth >=? maxDepth) eqn:E1.
  - replace (depth <? maxDepth) with false by (symmetry; apply Z.ltb_ge; lia).
    reflexivity.
  - replace (depth <? maxDepth) with true by (symmetry; apply Z.ltb_lt; lia).
    simpl. destruct (Js.includes _ "booster"); [reflexivity|].
    now destruct (Js.includes _ "fuel block").
Qed.

Lemma walkLines_no_qualifier fb maxDepth w' runs depth mats :
  Forall (fun m => qualifies (lineName m) = false) mats ->
  forall st,
    walkLines fb maxDepth w' runs depth mats st = Some (recordLines runs mats st).
Proof.
  unfold walkLines, recordLines.
  induction mats as [|m mats IH]; intros Hall st; simpl; [reflexivity|].
  inversion Hall as [|? ? Hm Hrest]; subst.
  unfold walkLine at 2.
  rewrite shouldExpand_qualifies, Hm, andb_false_r. now apply IH.
Qed.

(** The depth setting matters only for lines whose name matches: when no
    direct line of the root's activity has "booster" or "fuel block" in its
    name, every depth limit gives the result of depth 0. *)
Theorem expand_without_qualifying_lines fb maxDepth tid runs :
  Forall (fun m => qualifies (lineName m) = false) (directLines fb (Some tid)) ->
  expandToRawTotals fb maxDepth (Some tid) runs
  = expandToRawTotals fb 0 (Some tid) runs.
Proof.
  intros Hall. rewrite expand_depth0_unfold.
  unfold expandToRawTotals, directLines in *. simpl.
  destruct (decide ((tid, 0) ∈ (∅ : gset (Z * Z)))) as [Hin|_];
    [now apply not_elem_of_empty in Hin|].
  destruct (fb (Some tid)) as [bp|]; [|reflexivity].
  destruct (pickBlueprintActivity bp) as [act|]; [|reflexivity].
  destruct (activityLines bp act) as [|m mats]; [reflexivity|].
  now rewrite walkLines_no_qualifier.
Qed.

Lemma expand_without_qualifying_lines_witness :
  expandToRawTotals recipeWithZeroLine 3 (Some 1) 2
  = expandToRawTotals recipeWithZeroLine 0 (Some 1) 2.
Proof.
  apply expand_without_qualifying_lines.
  repeat constructor.
Defined.

Lemma ceil_div_covers n d :
  0 < d -> n <= Js.ceil_div n d * d < n + d.
Proof.
  intros Hd. unfold Js.ceil_div.
  pose proof (Z.div_mod (- n) d) as Hdm.
  pose proof (Z.mod_pos_bound (- n) d Hd) as Hmod. nia.
Qed.

(** A line that is expanded asks the child for enough runs to cover its
    need, and for less than one run more. *)
Theorem expanded_line_runs_cover fb maxDepth walk' runs depth m st bp act :
  shouldExpandMaterial (lineName m) depth maxDepth = true ->
  fb (lineTypeId m) = Some bp ->
  pickBlueprintActivity bp = Some act ->
  exists childRuns,
    walkLine fb maxDepth walk' runs depth m st
    = walk' (lineTypeId m) childRuns (depth + 1) st
    /\ linePerRun m * runs <= childRuns * Z.max (outputPerRun bp) 1
       < linePerRun m * runs + Z.max (outputPerRun bp) 1.
Proof.
  intros Hexp Hbp Hact. unfold walkLine. rewrite Hexp, Hbp, Hact.
  eexists. split; [reflexivity|]. apply ceil_div_covers. lia.
Qed.

(** Ten units of a child made four per run: three runs. *)
Lemma expanded_line_runs_cover_witness :
  exists childRuns,
    walkLine twiceTheSameChild 1 (fun _ _ _ st => Some st) 1 0
      (material 2 "Gear Booster" 10) emptyWalk
    = Some emptyWalk
    /\ 10 * 1 <= childRuns * 4 < 10 * 1 + 4.
Proof.
  destruct (expanded_line_runs_cover twiceTheSameChild 1 (fun _ _ _ st => Some st)
              1 0 (material 2 "Gear Booster" 10) emptyWalk
              (manufacturing "Gear Booster" 4 [material 3 "Bolt" 2]) "1"%string
              eq_refl eq_refl eq_refl) as [childRuns [Hwalk Hcover]].
  exists childRuns. split; [exact Hwalk | exact Hcover].
Defined.

(** A child is expanded once per depth: a line that names a child already
    visited at the next depth adds nothing to any total, its need is not
    counted. *)
Theorem repeated_child_adds_nothing fb maxDepth fuel runs depth m t bp act st :
  shouldExpandMaterial (lineName m) depth maxDepth = true ->
  lineTypeId m = Some t ->
  fb (Some t) = Some bp ->
  pickBlueprintActivity bp = Some act ->
  (t, depth + 1) ∈ visited st ->
  exists st',
    walkLine fb maxDepth (walk fb maxDepth (S fuel)) runs depth m st = Some st'
    /\ visited st' = visited st
    /\ forall k, qtyOf (JsMap.get k (totals st')) = qtyOf (JsMap.get k (totals st)).
Proof.
  intros Hexp Hmid Hbp Hact Hseen. unfold walkLine.
  rewrite Hexp, Hmid, Hbp, Hact. rewrite walk_revisit by exact Hseen.
  eexists. split; [reflexivity|]. split; [reflexivity|].
  intros k. rewrite qtyOf_record. destruct (decide (Some t = k)); lia.
Qed.

(** Two lines for the same child: 10 + 5 "Gear Booster" are needed, the
    bolts of the first line alone are counted. *)
Lemma repeated_child_adds_nothing_witness :
  (exists st',
      walkLine twiceTheSameChild 1 (walk twiceTheSameChild 1 1) 1 0
        (material 2 "Gear Booster" 5)
        {| totals := []; visited := {[ (2, 0 + 1) ]} |} = Some st'
      /\ visited st' = {[ (2, 0 + 1) ]}
      /\ forall k, qtyOf (JsMap.get k (totals st')) = 0)
  /\ expandToRawTotals twiceTheSameChild 1 (Some 1) 1
     = Some [{| typeId := Some 3; name := "Bolt"; qty := 6 |}].
Proof.
  split; [|vm_compute; reflexivity].
  assert (Hseen : (2, 0 + 1) ∈
                  visited {| totals := []; visited := {[ (2, 0 + 1) ]} |})
    by (simpl; now apply elem_of_singleton_2).
  exact (repeated_child_adds_nothing twiceTheSameChild 1 0 1 0
           (material 2 "Gear Booster" 5) 2
           (manufacturing "Gear Booster" 4 [material 3 "Bolt" 2]) "1"%string
           {| totals := []; visited := {[ (2, 0 + 1) ]} |}
           eq_refl eq_refl eq_refl eq_refl Hseen).
Defined.

(** ** More on the fetch layer *)

Section FetchMore.
Context {Json : Type}.
Variable JSON_parse : string -> option Json.
Variable encodeURIComponent : string -> string.
Variable typeRows : Json -> option (list (option TypeRow)).
Variable network : Z -> string -> N * HttpReply.

(** A document that [fetchJson] has just returned is served again from
    [memCache], without a request, as long as it is asked for with
    [ttlMs <= 0] or before [ttlMs] has passed since the first call began. *)
Theorem fetchJson_repeat_served_from_cache url ttlMs (w w' : World) d :
  fetchJson JSON_parse network url ttlMs w = (Returned d, w') ->
  ttlMs <= 0 \/ clock w' - clock w < ttlMs ->
  fetchJson JSON_parse network url ttlMs w' = (Returned d, w').
Proof.
  intros Hfirst Hfresh.
  destruct (fetchJson_cases JSON_parse network url ttlMs w)
    as [[d' [_ H0]]|[_ [[e H0]|[d' H0]]]];
    rewrite H0 in Hfirst; try discriminate.
  - injection Hfirst as <- <-. exact H0.
  - injection Hfirst as <- <-. unfold fetchJson at 1. simpl.
    rewrite lookup_insert_eq. simpl.
    replace ((ttlMs <=? 0) || (clock w + Z.of_N (network (clock w) url).1 - clock w <? ttlMs))%bool
      with true; [reflexivity|].
    symmetry. apply orb_true_iff. simpl in Hfresh.
    destruct Hfresh as [Hle|Hlt]; [left; lia | right; lia].
Qed.

(** [fetchJson] touches nothing but the clock, the request log and the
    cache entry of its own URL: the throttle stamp, the stored index and
    every other cache entry stay as they were, and the log grows by at most
    the one request for this URL. *)
Theorem fetchJson_frame url ttlMs (w : World) :
  let w' := (fetchJson JSON_parse network url ttlMs w).2 in
  adamLastCallMs w' = adamLastCallMs w
  /\ localStorage w' = localStorage w
  /\ (forall key, key <> cacheKey url -> memCache w' !! key = memCache w !! key)
  /\ (requests w' = requests w \/ requests w' = requests w ++ [(clock w, url)])
  /\ clock w <= clock w'.
Proof.
  destruct (fetchJson_cases JSON_parse network url ttlMs w)
    as [[d [_ ->]]|[_ [[e ->]|[d ->]]]]; simpl;
    (split; [reflexivity|]); (split; [reflexivity|]);
    (split; [intros key Hkey; try reflexivity|]);
    try (split; [auto | lia]).
  now rewrite lookup_insert_ne.
Qed.

Lemma fetchJson_storage_log url ttlMs (w : World) :
  let w' := (fetchJson JSON_parse network url ttlMs w).2 in
  localStorage w' = localStorage w
  /\ (length (requests w') <= length (requests w) + 1)%nat.
Proof.
  destruct (fetchJson_cases JSON_parse network url ttlMs w)
    as [[d [_ ->]]|[_ [[e ->]|[d ->]]]]; simpl;
    (split; [reflexivity|]); rewrite ?length_app; simpl; lia.
Qed.

Lemma resolveParts_frame parts :
  forall (m : gmap string (option Z)) (w : World (Json := Json)),
    let r := resolveParts JSON_parse encodeURIComponent typeRows network parts m w in
    localStorage r.2 = localStorage w
    /\ (length (requests r.2) <= length (requests w) + length parts)%nat.
Proof.
  induction parts as [|names rest IH]; intros m w; simpl; [split; [reflexivity | lia]|].
  pose proof (fetchJson_storage_log (typeidUrl encodeURIComponent names)
                (24 * 3600 * 1000) w) as Hframe.
  cbv zeta in Hframe. destruct Hframe as [Hls Hlen].
  destruct (fetchJson JSON_parse network _ _ w) as [[d|e] w1]; simpl in *.
  - destruct (typeRows d) as [rows|]; simpl.
    + specialize (IH (mergeRows rows m) w1). cbv zeta in IH.
      destruct IH as [IHls IHreq]. split; [congruence | lia].
    + split; [exact Hls | lia].
  - split; [exact Hls | lia].
Qed.

Lemma filter_length_le {A} (f : A -> bool) (l : list A) :
  (length (List.filter f l) <= length l)%nat.
Proof.
  induction l as [|a l IH]; simpl; [lia|]. destruct (f a); simpl; lia.
Qed.


End FetchMore.

(** A document fetched with a one-minute TTL and asked for again 250 ms
    after the first call began. *)
Lemma fetchJson_repeat_served_from_cache_witness :
  let w' := (fetchJson parseText available "u" 60000 (pageLoad 1700000000000)).2 in
  fetchJson parseText available "u" 60000 w' = (Returned "[]"%string, w')
  /\ length (requests w') = 1%nat.
Proof.
  cbv zeta. split; [|reflexivity].
  apply (fetchJson_repeat_served_from_cache parseText available "u" 60000
           (pageLoad 1700000000000)).
  - reflexivity.
  - right. vm_compute. reflexivity.
Defined.

(** A fetch of "u" leaves the cache entry of another URL alone. *)
Lemma fetchJson_frame_witness :
  memCache (fetchJson parseText available "u" 0 (pageLoad 1700000000000)).2
    !! cacheKey "v"
  = memCache (pageLoad 1700000000000) !! cacheKey "v".
Proof.
  destruct (fetchJson_frame parseText available "u" 0 (pageLoad 1700000000000))
    as [_ [_ [Hother _]]].
  apply Hother. discriminate.
Defined.



(** ** More on sums, tables and statistics *)

Lemma fold_Qplus_proper l : forall a b, (a == b)%Q ->
  (fold_left Qplus l a == fold_left Qplus l b)%Q.
Proof.
  induction l as [|x l IH]; intros a b Hab; simpl; [exact Hab|].
  apply IH. now rewrite Hab.
Qed.

Lemma fold_Qplus_perm l l' :
  l ≡ₚ l' -> forall a, (fold_left Qplus l a == fold_left Qplus l' a)%Q.
Proof.
  induction 1 as [|x l l' _ IH|x y l|l l' l'' _ IH1 _ IH2]; intros a; simpl.
  - reflexivity.
  - apply IH.
  - apply fold_Qplus_proper. ring.
  - now rewrite IH1.
Qed.

Lemma Qsum_perm l l' : l ≡ₚ l' -> (Qsum l == Qsum l')%Q.
Proof. intros Hp. now apply fold_Qplus_perm. Qed.

Lemma StronglySorted_fmap {A B} (f : A -> B) (R : B -> B -> Prop) l :
  StronglySorted (fun a b => R (f a) (f b)) l -> StronglySorted R (f <$> l).
Proof.
  induction 1 as [|a l _ IH Hall]; [constructor|].
  rewrite fmap_cons. constructor; [exact IH|].
  apply Forall_fmap. exact Hall.
Qed.

Lemma StronglySorted_weaken {A} (R R' : A -> A -> Prop) l :
  (forall a b, R a b -> R' a b) -> StronglySorted R l -> StronglySorted R' l.
Proof.
  intros Himp. induction 1 as [|a l _ IH Hall]; constructor; [exact IH|].
  eapply Forall_impl; [exact Hall|]. intros b. apply Himp.
Qed.



Lemma direct_sum_as_rows agg totalRuns mode (mats : list DirectMat) :
  forall sum,
    fold_left
      (fun sum m =>
         match getAggPrice agg (d_typeId m) mode with
         | Some unit => (sum + unit * inject_Z (d_qtyPerRun m * totalRuns))%Q
         | None => sum
         end) mats sum
    = fold_left Qplus
        (omap row_cost
           (rawRow agg totalRuns mode
              <$> List.map (fun m => {| typeId := d_typeId m; name := d_name m;
                                        qty := d_qtyPerRun m * totalRuns |}) mats))
        sum.
Proof.
  induction mats as [|m mats IH]; intros sum; [reflexivity|].
  cbn [fold_left List.map]. rewrite IH, fmap_cons.
  set (r := {| typeId := d_typeId m; name := d_name m;
               qty := d_qtyPerRun m * totalRuns |}).
  change (omap row_cost (rawRow agg totalRuns mode r :: ?l))
    with (match row_cost (rawRow agg totalRuns mode r) with
          | Some y => y :: omap row_cost l
          | None => omap row_cost l
          end).
  unfold rawRow at 2. simpl.
  destruct (getAggPrice agg (d_typeId m) mode); reflexivity.
Qed.



Lemma inject_nat_succ n :
  (inject_Z (Z.of_nat (S n)) == inject_Z (Z.of_nat n) + 1)%Q.
Proof. rewrite Nat2Z.inj_succ. unfold Z.succ. rewrite inject_Z_plus. reflexivity. Qed.

Lemma fold_Qplus_lower (m : Q) l :
  (forall p, p ∈ l -> (m <= p)%Q) ->
  forall a, (a + inject_Z (Z.of_nat (length l)) * m <= fold_left Qplus l a)%Q.
Proof.
  induction l as [|x l IH]; intros Hall a.
  - cbn [fold_left length]. change (inject_Z (Z.of_nat 0)) with 0%Q. lra.
  - cbn [fold_left length]. rewrite inject_nat_succ.
    assert (Hx : (m <= x)%Q) by (apply Hall; left).
    specialize (IH (fun p Hp => Hall p (list_elem_of_further _ _ _ Hp)) (a + x)%Q).
    lra.
Qed.

Lemma fold_Qplus_upper (m : Q) l :
  (forall p, p ∈ l -> (p <= m)%Q) ->
  forall a, (fold_left Qplus l a <= a + inject_Z (Z.of_nat (length l)) * m)%Q.
Proof.
  induction l as [|x l IH]; intros Hall a.
  - cbn [fold_left length]. change (inject_Z (Z.of_nat 0)) with 0%Q. lra.
  - cbn [fold_left length]. rewrite inject_nat_succ.
    assert (Hx : (x <= m)%Q) by (apply Hall; left).
    specialize (IH (fun p Hp => Hall p (list_elem_of_further _ _ _ Hp)) (a + x)%Q).
    lra.
Qed.

Lemma seriesStats_order rows s :
  seriesStats rows = Some s ->
  (0 < s_min s)%Q /\ (s_min s <= s_avg s)%Q /\ (s_avg s <= s_max s)%Q.
Proof.
  intros Hs.
  destruct (seriesStats_spec rows s Hs)
    as [_ [_ [Hmin [Hminle [_ [Hmaxle [Havg _]]]]]]].
  set (prices := validPrices (js_sort byDate rows)) in *.
  assert (Hpos : (0 < s_min s)%Q) by (apply elem_validPrices in Hmin; tauto).
  assert (Hn : (0 < inject_Z (Z.of_nat (length prices)))%Q).
  { destruct prices; [now apply elem_of_nil in Hmin|].
    unfold Qlt. simpl. lia. }
  pose proof (fold_Qplus_lower (s_min s) prices Hminle 0%Q) as Hlow.
  pose proof (fold_Qplus_upper (s_max s) prices Hmaxle 0%Q) as Hup.
  unfold Qsum in Havg. rewrite <- Havg in Hlow, Hup.
  split; [exact Hpos|]. split.
  - apply (Qmult_lt_0_le_reg_r _ _ _ Hn). lra.
  - apply (Qmult_lt_0_le_reg_r _ _ _ Hn). lra.
Qed.



Lemma validPrices_nil rows :
  validPrices rows = []
  <-> forall r p, r ∈ rows -> rowPrice r = Some p -> (p <= 0)%Q.
Proof.
  split.
  - intros Hnil r p Hr Hp. apply Qnot_lt_le. intros Hpos.
    assert (Hin : p ∈ validPrices rows) by (apply elem_validPrices; eauto).
    rewrite Hnil in Hin. now apply elem_of_nil in Hin.
  - intros Hall. destruct (validPrices rows) as [|p ps] eqn:Hv; [reflexivity|].
    assert (Hin : p ∈ validPrices rows) by (rewrite Hv; left).
    apply elem_validPrices in Hin. destruct Hin as [[r [Hr Hp]] Hpos].
    exfalso. apply (Qlt_not_le _ _ Hpos). eauto.
Qed.

(** A series yields no statistics exactly when none of its rows has a
    positive numeric price. *)
Theorem no_stats_without_valid_price rows :
  seriesStats rows = None
  <-> forall r p, r ∈ rows -> rowPrice r = Some p -> (p <= 0)%Q.
Proof.
  rewrite <- validPrices_nil. unfold seriesStats.
  assert (Hsame : validPrices (js_sort byDate rows) = []
                  <-> validPrices rows = []).
  { rewrite !validPrices_nil. split; intros Hall r p Hr; apply Hall.
    - now rewrite js_sort_perm.
    - now rewrite js_sort_perm in Hr. }
  destruct (js_sort byDate rows) as [|first rest] eqn:Hsorted.
  - split; [|reflexivity]. intros _. apply Hsame. reflexivity.
  - destruct (validPrices (first :: rest)) as [|p ps].
    + split; [|reflexivity]. intros _. now apply Hsame.
    + split; [discriminate|]. intros Hnil. apply Hsame in Hnil. discriminate.
Qed.

(** A series whose only prices are missing or zero. *)
Lemma no_stats_without_valid_price_witness :
  seriesStats [ historyRow 25268 "2024-03-02" 0;
                {| type_id := Js.Num 25268; price_date := "2024-03-01";
                   sell_price_avg := Js.Undefined |} ] = None.
Proof.
  apply no_stats_without_valid_price. intros r p Hr Hp.
  apply elem_of_cons in Hr. destruct Hr as [->|Hr].
  - injection Hp as <-. discriminate.
  - apply list_elem_of_singleton in Hr. subst r. discriminate Hp.
Defined.

Lemma groupByType_fold data :
  forall (acc : list (option Z * list HistoryRow)) k,
    JsMap.get k
      (fold_left
         (fun byType row =>
            let tid := Js.Number (type_id row) in
            JsMap.set tid (default [] (JsMap.get tid byType) ++ [row]) byType)
         data acc)
    = match JsMap.get k acc with
      | Some l => Some (l ++ rowsOfType k data)
      | None =>
          match rowsOfType k data with
          | [] => None
          | rows => Some rows
          end
      end.
Proof.
  induction data as [|row data IH]; intros acc k.
  - simpl. destruct (JsMap.get k acc); [now rewrite app_nil_r | reflexivity].
  - cbn [fold_left]. rewrite IH. unfold rowsOfType. cbn [List.filter].
    destruct (decide (Js.Number (type_id row) = k)) as [Heq|Hne].
    + rewrite Heq, get_set_eq, (bool_decide_eq_true_2 _ eq_refl).
      destruct (JsMap.get k acc); simpl; [now rewrite <- app_assoc | reflexivity].
    + rewrite get_set_ne by exact Hne.
      now rewrite (bool_decide_eq_false_2 _ Hne).
Qed.

(** Grouping loses no row and mixes no types: the group stored under a
    type ID is the list of all rows with that numeric [type_id], in arrival
    order, and a type ID without rows has no group. *)
Theorem groupByType_collects data k :
  JsMap.get k (groupByType data)
  = match rowsOfType k data with
    | [] => None
    | rows => Some rows
    end.
Proof. unfold groupByType. now rewrite groupByType_fold. Qed.

(** The percent change, when there is one, has the sign of the move from
    the first to the last price, and is never below -100 for a last price
    that is not negative. *)
Theorem percentChange_sign p0 p1 pct :
  percentChange p0 p1 = Some pct ->
  exists a b,
    p0 = Some a /\ p1 = Some b /\ (0 < a)%Q
    /\ ((0 < pct)%Q <-> (a < b)%Q)
    /\ ((pct == 0)%Q <-> (a == b)%Q)
    /\ ((0 <= b)%Q -> (-100 <= pct)%Q).
Proof.
  unfold percentChange. destruct p0 as [a|]; [|discriminate].
  destruct p1 as [b|]; [|discriminate].
  destruct (Qltb 0 a) eqn:Ha; [|discriminate]. apply Qltb_lt in Ha.
  intros [= <-]. exists a, b. repeat (split; [reflexivity || exact Ha|]).
  assert (Hne : ~ (a == 0)%Q) by lra.
  assert (Hpct : ((b - a) / a * 100 * a == (b - a) * 100)%Q) by (field; exact Hne).
  set (pct := ((b - a) / a * 100)%Q) in *.
  split; [|split].
  - split; intros H0; nra.
  - split; intros H0; nra.
  - intros Hb. nra.
Qed.

Lemma percentChange_sign_witness :
  exists a b,
    Some 100%Q = Some a /\ Some 30%Q = Some b /\ (0 < a)%Q
    /\ ((0 < (30 - 100) / 100 * 100)%Q <-> (a < b)%Q)
    /\ (((30 - 100) / 100 * 100 == 0)%Q <-> (a == b)%Q)
    /\ ((0 <= b)%Q -> (-100 <= (30 - 100) / 100 * 100)%Q).
Proof.
  apply (percentChange_sign (Some 100%Q) (Some 30%Q)). reflexivity.
Defined.

(** ** [esc] *)

Lemma string_app_assoc (a b c : string) :
  ((a ++ b) ++ c = a ++ (b ++ c))%string.
Proof.
  induction a as [|x a IH]; [reflexivity|].
  change (String x ((a ++ b) ++ c) = String x (a ++ (b ++ c)))%string.
  now rewrite IH.
Qed.

Lemma replaceAll_app c repl a b :
  replaceAll c repl (a ++ b) = (replaceAll c repl a ++ replaceAll c repl b)%string.
Proof.
  induction a as [|x a IH]; simpl; [reflexivity|].
  destruct (Ascii.eqb x c); simpl; rewrite IH; [|reflexivity].
  now rewrite string_app_assoc.
Qed.

(** The five passes amount to one pass that rewrites each character on its
    own. *)
Lemma esc_cons a s : esc (String a s) = (escChar a ++ esc s)%string.
Proof.
  unfold esc, escChar. cbn [replaceAll].
  destruct (Ascii.eqb_spec a "&") as [->|Hamp].
  { now rewrite !replaceAll_app. }
  cbn [replaceAll].
  destruct (Ascii.eqb_spec a "<") as [->|Hlt].
  { now rewrite !replaceAll_app. }
  cbn [replaceAll].
  destruct (Ascii.eqb_spec a ">") as [->|Hgt].
  { now rewrite !replaceAll_app. }
  cbn [replaceAll].
  destruct (Ascii.eqb_spec a dquote) as [->|Hdq].
  { now rewrite !replaceAll_app. }
  cbn [replaceAll].
  destruct (Ascii.eqb_spec a "'") as [->|Hap]; reflexivity.
Qed.

Lemma escChar_cases a :
  (escChar a = String a EmptyString /\ a <> "&"%char /\ ~ markup a)
  \/ (a = "&"%char /\ escChar a = "&amp;"%string)
  \/ (a = "<"%char /\ escChar a = "&lt;"%string)
  \/ (a = ">"%char /\ escChar a = "&gt;"%string)
  \/ (a = dquote /\ escChar a = "&quot;"%string)
  \/ (a = "'"%char /\ escChar a = "&#039;"%string).
Proof.
  unfold escChar, markup.
  destruct (Ascii.eqb_spec a "&") as [->|Hamp]; [right; left; auto|].
  destruct (Ascii.eqb_spec a "<") as [->|Hlt]; [right; right; left; auto|].
  destruct (Ascii.eqb_spec a ">") as [->|Hgt]; [right; right; right; left; auto|].
  destruct (Ascii.eqb_spec a dquote) as [->|Hdq];
    [right; right; right; right; left; auto|].
  destruct (Ascii.eqb_spec a "'") as [->|Hap];
    [right; right; right; right; right; auto|].
  left. split; [reflexivity|]. split; [exact Hamp|]. tauto.
Qed.

Lemma elem_list_ascii_app a b c :
  c ∈ list_ascii_of_string (a ++ b)
  <-> c ∈ list_ascii_of_string a \/ c ∈ list_ascii_of_string b.
Proof.
  induction a as [|x a IH]; simpl.
  - rewrite elem_of_nil. tauto.
  - rewrite !elem_of_cons, IH. tauto.
Qed.

(** Escaped text holds no character that opens or closes markup or an
    attribute value, and text without such characters and without "&" is
    left as it is. *)
Theorem esc_leaves_no_markup str :
  (forall c, c ∈ list_ascii_of_string (esc str) -> ~ markup c)
  /\ ((forall c, c ∈ list_ascii_of_string str -> c <> "&"%char /\ ~ markup c) ->
      esc str = str).
Proof.
  induction str as [|a s [IHsafe IHid]]; [split; [intros c Hc | reflexivity]|].
  { now apply elem_of_nil in Hc. }
  rewrite esc_cons. split.
  - intros c Hc. apply elem_list_ascii_app in Hc. destruct Hc as [Hc|Hc]; [|auto].
    unfold markup.
    destruct (escChar_cases a)
      as [[Ea [_ Hm]]|[[_ Ea]|[[_ Ea]|[[_ Ea]|[[_ Ea]|[_ Ea]]]]]];
      rewrite Ea in Hc; simpl in Hc; rewrite ?elem_of_cons, elem_of_nil in Hc;
      unfold markup in *; intuition (subst; try discriminate; auto).
  - intros Hclean. rewrite IHid.
    + destruct (Hclean a) as [Hamp Hm]; [left|].
      destruct (escChar_cases a)
        as [[Ea _]|[[Ea _]|[[Ea _]|[[Ea _]|[[Ea _]|[Ea _]]]]]];
        [now rewrite Ea | congruence | | | |];
        exfalso; apply Hm; unfold markup; auto.
    + intros c Hc. apply Hclean. simpl. now right.
Qed.

Lemma esc_leaves_no_markup_witness : esc "Blue Pill" = "Blue Pill"%string.
Proof.
  destruct (esc_leaves_no_markup "Blue Pill") as [_ Hid]. apply Hid.
  intros c Hc. simpl in Hc. rewrite !elem_of_cons, elem_of_nil in Hc.
  unfold markup.
  repeat (destruct Hc as [->|Hc]; [split; [discriminate|]; intros [H|[H|[H|H]]]; discriminate|]).
  destruct Hc.
Defined.

(** Different texts have different escapes. *)
Theorem esc_injective s1 :
  forall s2, esc s1 = esc s2 -> s1 = s2.
Proof.
  induction s1 as [|a s1 IH]; intros [|b s2].
  - reflexivity.
  - rewrite esc_cons. intros Heq. exfalso.
    destruct (escChar_cases b)
      as [[Eb _]|[[_ Eb]|[[_ Eb]|[[_ Eb]|[[_ Eb]|[_ Eb]]]]]];
      rewrite Eb in Heq; discriminate Heq.
  - rewrite esc_cons. intros Heq. exfalso.
    destruct (escChar_cases a)
      as [[Ea _]|[[_ Ea]|[[_ Ea]|[[_ Ea]|[[_ Ea]|[_ Ea]]]]]];
      rewrite Ea in Heq; discriminate Heq.
  - rewrite !esc_cons. intros Heq.
    destruct (escChar_cases a)
      as [[Ea [Haamp _]]|[[Ha Ea]|[[Ha Ea]|[[Ha Ea]|[[Ha Ea]|[Ha Ea]]]]]];
      destruct (escChar_cases b)
        as [[Eb [Hbamp _]]|[[Hb Eb]|[[Hb Eb]|[[Hb Eb]|[[Hb Eb]|[Hb Eb]]]]]];
      rewrite Ea, Eb in Heq; simpl in Heq;
      try discriminate Heq;
      try (injection Heq as Hab Hrest; subst; try congruence;
           f_equal; now apply IH);
      try (injection Heq as Hrest; subst; f_equal; now apply IH).
Qed.

Lemma esc_injective_witness : "<b>"%string = "<b>"%string.
Proof. apply esc_injective. reflexivity. Defined.

(** ** Flip triggers *)



(** Without statistics the triggers bracket a positive current price,
    10 % below and 10 % above; without a positive price there are none. *)
Theorem flip_triggers_without_stats now :
  ((0 < now)%Q ->
   flipThreshold None (Some now) = Some (now * (90 # 100))%Q
   /\ flipTarget None (Some now) = Some (now * (110 # 100))%Q
   /\ (now * (90 # 100) < now)%Q /\ (now < now * (110 # 100))%Q)
  /\ ((now <= 0)%Q ->
      flipThreshold None (Some now) = None /\ flipTarget None (Some now) = None)
  /\ flipThreshold None None = None /\ flipTarget None None = None.
Proof.
  unfold flipThreshold, flipTarget. split; [|split; [|split; reflexivity]].
  - intros Hpos. rewrite (proj2 (Qltb_lt 0 now) Hpos).
    repeat split; lra.
  - intros Hle. destruct (Qltb 0 now) eqn:E; [|split; reflexivity].
    apply Qltb_lt in E. lra.
Qed.

Lemma flip_triggers_without_stats_witness :
  flipThreshold None (Some 200%Q) = Some (200 * (90 # 100))%Q
  /\ flipTarget None (Some (-1)%Q) = None.
Proof.
  split.
  - destruct (flip_triggers_without_stats 200) as [Hpos _].
    apply Hpos. reflexivity.
  - destruct (flip_triggers_without_stats (-1)) as [_ [Hneg _]].
    apply Hneg. discriminate.
Defined.

(** ** Ice equivalents *)

Lemma mined_app f a b : mined f (a ++ b) = mined f a + mined f b.
Proof.
  unfold mined. induction a as [|x a IH]; simpl; [reflexivity|].
  rewrite IH. lia.
Qed.

Lemma mined_snoc f p row :
  mined f (p ++ [row]) = mined f p + blocks row * f (iceYield (iceName row)).
Proof. rewrite mined_app. unfold mined at 2. simpl. lia. Qed.

Lemma mined_perm f a b : a ≡ₚ b -> mined f a = mined f b.
Proof.
  unfold mined.
  induction 1 as [|x l l' _ IH|x y l|l l' l'' _ IH1 _ IH2]; simpl; lia.
Qed.

Lemma orNum_zero x : orNum x 0 = x.
Proof. unfold orNum. destruct (x =? 0) eqn:E; lia. Qed.

Lemma orNum_one x : 1 <= x -> Z.max 1 (orNum x 1) = x.
Proof. intros Hx. unfold orNum. destruct (x =? 0) eqn:E; lia. Qed.

(** The isotope needs keep their four keys. *)
Lemma iceNeed_isotopes rawTotals :
  exists he n o hy,
    needIsotopes (iceNeed rawTotals)
    = [ ("Helium Isotopes"%string, he); ("Nitrogen Isotopes"%string, n);
        ("Oxygen Isotopes"%string, o); ("Hydrogen Isotopes"%string, hy) ].
Proof.
  unfold iceNeed.
  assert (Hgen : forall need,
             (exists he n o hy,
                 needIsotopes need
                 = [ ("Helium Isotopes"%string, he); ("Nitrogen Isotopes"%string, n);
                     ("Oxygen Isotopes"%string, o); ("Hydrogen Isotopes"%string, hy) ]) ->
             exists he n o hy,
               needIsotopes (fold_left addNeed rawTotals need)
               = [ ("Helium Isotopes"%string, he); ("Nitrogen Isotopes"%string, n);
                   ("Oxygen Isotopes"%string, o); ("Hydrogen Isotopes"%string, hy) ]).
  { induction rawTotals as [|r rest IH]; intros need Hneed; [exact Hneed|].
    cbn [fold_left]. apply IH. destruct Hneed as [he [n [o [hy Hshape]]]].
    unfold addNeed, addIsotope.
    destruct (qty r =? 0); [eauto 6|].
    repeat (match goal with
            | |- context [String.eqb ?a ?b] => destruct (String.eqb a b)
            end; [cbn [needIsotopes]; rewrite ?Hshape; simpl; eauto 6|]).
    eauto 6. }
  apply Hgen. simpl. eauto 6.
Qed.

Lemma isotopeYield_nonneg iso y : yieldOk y -> 0 <= isotopeYield iso y.
Proof.
  intros [_ [_ [_ Hq]]]. unfold isotopeYield.
  destruct (decide (isotope y = Some iso)); lia.
Qed.

(** Step 1 keeps the counters equal to what the plan yields, and covers the
    isotope of every faction ice it passes. *)
Lemma mineIsotopeIce_step need acc ice y :
  JsMap.get ice ICE_YIELDS = Some y -> yieldOk y ->
  producedHW acc = mined heavyWater (plan acc) ->
  producedLO acc = mined liquidOzone (plan acc) ->
  producedStront acc = mined strontium (plan acc) ->
  Forall planRowOk (plan acc) ->
  let acc' := mineIsotopeIce need acc (ice, y) in
  producedHW acc' = mined heavyWater (plan acc')
  /\ producedLO acc' = mined liquidOzone (plan acc')
  /\ producedStront acc' = mined strontium (plan acc')
  /\ Forall planRowOk (plan acc')
  /\ (forall iso, mined (isotopeYield iso) (plan acc)
                  <= mined (isotopeYield iso) (plan acc'))
  /\ (forall iso, isotope y = Some iso -> 1 <= isotopeQty y ->
                  default 0 (JsMap.get iso (needIsotopes need))
                  <= mined (isotopeYield iso) (plan acc')).
Proof.
  intros Hget Hok Hhw Hlo Hsr Hall. cbv zeta. unfold mineIsotopeIce.
  assert (Hmined0 : forall iso, 0 <= mined (isotopeYield iso) (plan acc)).
  { intros iso. clear -Hall. induction (plan acc) as [|row p IH]; [simpl; lia|].
    inversion Hall as [|? ? [Hb [y' Hy']] Hrest]; subst.
    change (0 <= blocks row * isotopeYield iso (iceYield (iceName row))
                 + mined (isotopeYield iso) p).
    specialize (IH Hrest).
    assert (0 <= isotopeYield iso (iceYield (iceName row))).
    { unfold isotopeYield. destruct (decide _); [|lia].
      unfold iceYield. rewrite Hy'. simpl.
      clear -Hy'. unfold ICE_YIELDS in Hy'. simpl in Hy'.
      repeat (match type of Hy' with
              | (if ?c then _ else _) = _ => destruct c
              end; [injection Hy' as <-; simpl; lia|]).
      discriminate. }
    nia. }
  destruct (isotope y) as [iso0|] eqn:Hiso.
  2:{ repeat (split; [assumption|]). split; [intros; lia|]. intros iso [=]. }
  rewrite orNum_zero.
  set (req := default 0 (JsMap.get iso0 (needIsotopes need))).
  destruct (req <=? 0) eqn:Hreq.
  { repeat (split; [assumption|]). split; [intros; lia|].
    intros iso [= <-] Hq. fold req. specialize (Hmined0 iso0). lia. }
  destruct (Js.ceil_div req (Z.max 1 (orNum (isotopeQty y) 1)) <=? 0) eqn:Hb.
  { repeat (split; [assumption|]). split; [intros; lia|].
    intros iso [= <-] Hq. fold req. rewrite orNum_one in Hb by exact Hq.
    pose proof (ceil_div_covers req (isotopeQty y) ltac:(lia)). nia. }
  cbn [plan producedHW producedLO producedStront].
  rewrite !mined_snoc, !orNum_zero. cbn [blocks iceName].
  assert (Hy : iceYield ice = y) by (unfold iceYield; now rewrite Hget).
  rewrite Hy. destruct Hok as [Hhw0 [Hlo0 [Hsr0 Hq0]]].
  split; [lia|]. split; [lia|]. split; [lia|]. split.
  { apply Forall_app. split; [exact Hall|]. constructor; [|constructor].
    split; [cbn [blocks]; lia | cbn [iceName]; eauto]. }
  split.
  - intros iso. rewrite mined_snoc. cbn [blocks iceName]. rewrite Hy.
    pose proof (isotopeYield_nonneg iso y (conj Hhw0 (conj Hlo0 (conj Hsr0 Hq0)))).
    nia.
  - intros iso [= <-] Hq. rewrite mined_snoc. cbn [blocks iceName]. rewrite Hy.
    replace (isotopeYield iso0 y) with (isotopeQty y)
      by (unfold isotopeYield; rewrite Hiso;
          destruct (decide (Some iso0 = Some iso0)); congruence).
    rewrite orNum_one by exact Hq.
    pose proof (ceil_div_covers req (isotopeQty y) ltac:(lia)).
    specialize (Hmined0 iso0). fold req. lia.
Qed.

Lemma mineIsotopeIce_fold need tbl :
  Forall (fun e => JsMap.get e.1 ICE_YIELDS = Some e.2 /\ yieldOk e.2) tbl ->
  forall acc,
    producedHW acc = mined heavyWater (plan acc) ->
    producedLO acc = mined liquidOzone (plan acc) ->
    producedStront acc = mined strontium (plan acc) ->
    Forall planRowOk (plan acc) ->
    let m := fold_left (mineIsotopeIce need) tbl acc in
    producedHW m = mined heavyWater (plan m)
    /\ producedLO m = mined liquidOzone (plan m)
    /\ producedStront m = mined strontium (plan m)
    /\ Forall planRowOk (plan m)
    /\ (forall iso, mined (isotopeYield iso) (plan acc)
                    <= mined (isotopeYield iso) (plan m))
    /\ (forall e iso, e ∈ tbl -> isotope e.2 = Some iso -> 1 <= isotopeQty e.2 ->
                      default 0 (JsMap.get iso (needIsotopes need))
                      <= mined (isotopeYield iso) (plan m)).
Proof.
  induction 1 as [|[ice y] tbl [Hget Hok] _ IH]; intros acc Hhw Hlo Hsr Hall.
  - cbv zeta. simpl. repeat (split; [assumption|]).
    split; [intros; lia|]. intros e iso He. now apply elem_of_nil in He.
  - cbn [fold_left]. simpl in Hget, Hok.
    destruct (mineIsotopeIce_step need acc ice y Hget Hok Hhw Hlo Hsr Hall)
      as [Hhw' [Hlo' [Hsr' [Hall' [Hmono Hcover]]]]].
    destruct (IH _ Hhw' Hlo' Hsr' Hall')
      as [Hhw2 [Hlo2 [Hsr2 [Hall2 [Hmono2 Hcover2]]]]].
    cbv zeta. repeat (split; [assumption|]). split.
    + intros iso. specialize (Hmono iso). specialize (Hmono2 iso). lia.
    + intros e iso He Hiso Hq. apply elem_of_cons in He. destruct He as [->|He].
      * specialize (Hcover iso Hiso Hq). specialize (Hmono2 iso). lia.
      * now apply (Hcover2 e).
Qed.

Lemma ICE_YIELDS_sound :
  Forall (fun e => JsMap.get e.1 ICE_YIELDS = Some e.2 /\ yieldOk e.2) ICE_YIELDS.
Proof. repeat constructor; simpl; lia. Qed.

Lemma standard_ices ice y :
  JsMap.get ice ICE_YIELDS = Some y -> isotope y = None ->
  y = iceYield "Glare Crust" \/ y = iceYield "Dark Glitter"
  \/ y = iceYield "Gelidus" \/ y = iceYield "Krystallos".
Proof.
  intros Hget Hnone. unfold ICE_YIELDS in Hget. simpl in Hget.
  repeat (match type of Hget with
          | (if ?c then _ else _) = _ => destruct c
          end; [injection Hget as <-; try discriminate Hnone;
                vm_compute; tauto|]).
  discriminate.
Qed.

(** The standard ice chosen for the top-up is one of the table, without
    isotopes and with positive yields, and none needs fewer blocks. *)
Lemma pickBest_standard remHW remLO remStront :
  exists ice y,
    pickBest remHW remLO remStront
    = Some (ice, topUpBlocks remHW remLO remStront y)
    /\ JsMap.get ice ICE_YIELDS = Some y
    /\ isotope y = None
    /\ 1 <= heavyWater y /\ 1 <= liquidOzone y /\ 1 <= strontium y
    /\ forall ice' y',
         JsMap.get ice' ICE_YIELDS = Some y' -> isotope y' = None ->
         topUpBlocks remHW remLO remStront y
         <= topUpBlocks remHW remLO remStront y'.
Proof.
  unfold pickBest.
  remember (topUpBlocks remHW remLO remStront) as tb eqn:Htb.
  pose proof standard_ices as Hothers.
  cbn [standardNames]. simpl.
  repeat match goal with
         | |- context [tb ?y <? tb ?y'] => destruct (Z.ltb_spec (tb y) (tb y'))
         end;
    eexists; eexists; (split; [reflexivity|]); (split; [reflexivity|]);
    (split; [reflexivity|]); (split; [simpl; lia|]); (split; [simpl; lia|]);
    (split; [simpl; lia|]);
    intros ice' y' Hget Hnone;
    destruct (Hothers ice' y' Hget Hnone) as [->|[->|[->| ->]]];
    unfold iceYield; simpl; lia.
Qed.

Lemma topUpBlocks_covers remHW remLO remStront y :
  1 <= heavyWater y -> 1 <= liquidOzone y -> 1 <= strontium y ->
  let b := topUpBlocks remHW remLO remStront y in
  0 <= b
  /\ (remHW <= b * heavyWater y)
  /\ (remLO <= b * liquidOzone y)
  /\ (remStront <= b * strontium y)
  /\ (0 < remHW \/ 0 < remLO \/ 0 < remStront -> 0 < b).
Proof.
  intros Hhw Hlo Hsr. cbv zeta. unfold topUpBlocks.
  rewrite !orNum_one by assumption.
  pose proof (ceil_div_covers remHW (heavyWater y) ltac:(lia)) as Chw.
  pose proof (ceil_div_covers remLO (liquidOzone y) ltac:(lia)) as Clo.
  pose proof (ceil_div_covers remStront (strontium y) ltac:(lia)) as Csr.
  set (chw := Js.ceil_div remHW (heavyWater y)) in *.
  set (clo := Js.ceil_div remLO (liquidOzone y)) in *.
  set (csr := Js.ceil_div remStront (strontium y)) in *.
  destruct (Z.ltb_spec 0 remHW); destruct (Z.ltb_spec 0 remLO);
    destruct (Z.ltb_spec 0 remStront); repeat split; nia.
Qed.

(** The plan of [computeIceEquivalents] covers what the raw materials ask
    of the ice products: mined from the ices of the plan, heavy water,
    liquid ozone, strontium clathrates and each of the four isotopes come
    to at least the quantity needed.  Every row asks for a positive number
    of blocks of an ice of the table, and the rows are ordered by blocks,
    largest first. *)
Theorem ice_plan_covers_needs rawTotals :
  let need := iceNeed rawTotals in
  let p := computeIceEquivalents rawTotals in
  needHeavyWater need <= mined heavyWater p
  /\ needLiquidOzone need <= mined liquidOzone p
  /\ needStrontium need <= mined strontium p
  /\ (forall iso q,
        JsMap.get iso (needIsotopes need) = Some q ->
        q <= mined (isotopeYield iso) p)
  /\ Forall planRowOk p
  /\ StronglySorted (fun a b => blocks b <= blocks a) p.
Proof.
  intros need p. unfold p, computeIceEquivalents. fold need.
  set (start := {| plan := []; producedHW := 0; producedLO := 0;
                   producedStront := 0 |}).
  destruct (mineIsotopeIce_fold need ICE_YIELDS ICE_YIELDS_sound start
              eq_refl eq_refl eq_refl ltac:(constructor))
    as [Hhw [Hlo [Hsr [Hall [_ Hiso]]]]].
  cbv zeta in Hhw, Hlo, Hsr, Hall, Hiso.
  set (m := fold_left (mineIsotopeIce need) ICE_YIELDS start) in *.
  set (remHW := Z.max 0 (needHeavyWater need - producedHW m)).
  set (remLO := Z.max 0 (needLiquidOzone need - producedLO m)).
  set (remStront := Z.max 0 (needStrontium need - producedStront m)).
  set (unsorted :=
         if ((0 <? remHW) || (0 <? remLO) || (0 <? remStront))%bool
         then match pickBest remHW remLO remStront with
              | Some (best, b) =>
                  if 0 <? b
                  then plan m ++ [{| iceName := best; blocks := b;
                                     covers := "HW/LO/Stront top‑up" |}]
                  else plan m
              | None => plan m
              end
         else plan m).
  assert (Hcore :
            needHeavyWater need <= mined heavyWater unsorted
            /\ needLiquidOzone need <= mined liquidOzone unsorted
            /\ needStrontium need <= mined strontium unsorted
            /\ (forall iso, mined (isotopeYield iso) (plan m)
                            <= mined (isotopeYield iso) unsorted)
            /\ Forall planRowOk unsorted).
  { unfold unsorted.
    destruct ((0 <? remHW) || (0 <? remLO) || (0 <? remStront))%bool eqn:Hany.
    - destruct (pickBest_standard remHW remLO remStront)
        as [ice [y [-> [Hget [Hnone [Yhw [Ylo [Ysr _]]]]]]]].
      destruct (topUpBlocks_covers remHW remLO remStront y Yhw Ylo Ysr)
        as [Hb0 [Chw [Clo [Csr Hpos]]]].
      assert (Hb : 0 < topUpBlocks remHW remLO remStront y) by (apply Hpos; lia).
      destruct (Z.ltb_spec 0 (topUpBlocks remHW remLO remStront y)); [|lia].
      rewrite !mined_snoc. cbn [blocks iceName].
      assert (Hy : iceYield ice = y) by (unfold iceYield; now rewrite Hget).
      rewrite Hy. split; [lia|]. split; [lia|]. split; [lia|]. split.
      + intros iso. rewrite mined_snoc. cbn [blocks iceName]. rewrite Hy.
        unfold isotopeYield at 3. rewrite Hnone.
        destruct (decide (None = Some iso)); [discriminate | lia].
      + apply Forall_app. split; [exact Hall|]. constructor; [|constructor].
        split; [exact Hb | cbn [iceName]; eauto].
    - split; [lia|]. split; [lia|]. split; [lia|]. split; [intros; lia | exact Hall]. }
  destruct Hcore as [Chw [Clo [Csr [Cmono Cok]]]].
  assert (Hperm : js_sort (fun a b => blocks b <=? blocks a) unsorted ≡ₚ unsorted)
    by apply js_sort_perm.
  rewrite !(mined_perm _ _ _ Hperm).
  split; [exact Chw|]. split; [exact Clo|]. split; [exact Csr|]. split.
  - intros iso q Hq. rewrite (mined_perm _ _ _ Hperm).
    specialize (Cmono iso).
    destruct (iceNeed_isotopes rawTotals) as [he [n [o [hy Hshape]]]].
    fold need in Hshape. rewrite Hshape in Hq.
    assert (Hdef : default 0 (JsMap.get iso (needIsotopes need)) = q)
      by (rewrite Hshape, Hq; reflexivity).
    rewrite <- Hdef. apply get_Some_elem in Hq.
    assert (Hfaction :
              forall ice y, (ice, y) ∈ ICE_YIELDS -> isotope y = Some iso ->
                            1 <= isotopeQty y ->
                            default 0 (JsMap.get iso (needIsotopes need))
                            <= mined (isotopeYield iso) unsorted).
    { intros ice y Hin Hy Hqty. etransitivity; [|exact Cmono].
      exact (Hiso (ice, y) iso Hin Hy Hqty). }
    rewrite !elem_of_cons, elem_of_nil in Hq.
    destruct Hq as [Hq|[Hq|[Hq|[Hq|[]]]]]; injection Hq as -> _.
    + apply (Hfaction "Clear Icicle"%string (iceYield "Clear Icicle"));
        [apply (list_elem_of_lookup_2 _ 0%nat); reflexivity
        | reflexivity | vm_compute; discriminate].
    + apply (Hfaction "White Glaze"%string (iceYield "White Glaze"));
        [apply (list_elem_of_lookup_2 _ 1%nat); reflexivity
        | reflexivity | vm_compute; discriminate].
    + apply (Hfaction "Blue Ice"%string (iceYield "Blue Ice"));
        [apply (list_elem_of_lookup_2 _ 2%nat); reflexivity
        | reflexivity | vm_compute; discriminate].
    + apply (Hfaction "Glacial Mass"%string (iceYield "Glacial Mass"));
        [apply (list_elem_of_lookup_2 _ 3%nat); reflexivity
        | reflexivity | vm_compute; discriminate].
  - split.
    + eapply Permutation_Forall; [symmetry; exact Hperm | exact Cok].
    + eapply StronglySorted_weaken;
        [|apply (js_sort_sorted (fun a b : PlanRow => blocks b <=? blocks a))].
      * intros a b Hab. simpl in Hab. lia.
      * intros a b. destruct (Z.le_ge_cases (blocks b) (blocks a)); [left | right]; lia.
      * intros a b c Hab Hbc. lia.
Qed.

(** Forty fuel blocks' worth: three Clear Icicle for 1000 helium isotopes,
    and the plan yields 1242. *)
Lemma ice_plan_covers_needs_witness :
  1000 <= mined (isotopeYield "Helium Isotopes") (computeIceEquivalents fuelNeeds)
  /\ mined (isotopeYield "Helium Isotopes") (computeIceEquivalents fuelNeeds) = 1242.
Proof.
  split; [|vm_compute; reflexivity].
  destruct (ice_plan_covers_needs fuelNeeds) as [_ [_ [_ [Hiso _]]]].
  apply Hiso. vm_compute. reflexivity.
Defined.

Lemma addNeed_sums need r :
  let need' := addNeed need r in
  needHeavyWater need' = needHeavyWater need + demand "heavy water" [r]
  /\ needLiquidOzone need' = needLiquidOzone need + demand "liquid ozone" [r]
  /\ needStrontium need' = needStrontium need + demand "strontium clathrates" [r]
  /\ forall he n o hy,
       needIsotopes need
       = [ ("Helium Isotopes"%string, he); ("Nitrogen Isotopes"%string, n);
           ("Oxygen Isotopes"%string, o); ("Hydrogen Isotopes"%string, hy) ] ->
       needIsotopes need'
       = [ ("Helium Isotopes"%string, he + demand "helium isotopes" [r]);
           ("Nitrogen Isotopes"%string, n + demand "nitrogen isotopes" [r]);
           ("Oxygen Isotopes"%string, o + demand "oxygen isotopes" [r]);
           ("Hydrogen Isotopes"%string, hy + demand "hydrogen isotopes" [r]) ].
Proof.
  cbv zeta. unfold addNeed, demand, addIsotope. cbn [foldr].
  destruct (Z.eqb_spec (qty r) 0) as [Hz|Hnz].
  { rewrite Hz. repeat split; try (destruct (String.eqb _ _); lia).
    intros he n o hy ->.
    repeat (destruct (String.eqb _ _)); repeat f_equal; lia. }
  destruct (String.eqb_spec (Js.toLowerCase (name r)) "heavy water") as [->|H1].
  { simpl. repeat split; try lia. intros he n o hy ->. repeat f_equal; lia. }
  destruct (String.eqb_spec (Js.toLowerCase (name r)) "liquid ozone") as [->|H2].
  { simpl. repeat split; try lia. intros he n o hy ->. repeat f_equal; lia. }
  destruct (String.eqb_spec (Js.toLowerCase (name r)) "strontium clathrates") as [->|H3].
  { simpl. repeat split; try lia. intros he n o hy ->. repeat f_equal; lia. }
  destruct (String.eqb_spec (Js.toLowerCase (name r)) "helium isotopes") as [->|H4].
  { simpl. repeat split; try lia. intros he n o hy ->. simpl. repeat f_equal; lia. }
  destruct (String.eqb_spec (Js.toLowerCase (name r)) "nitrogen isotopes") as [->|H5].
  { simpl. repeat split; try lia. intros he n o hy ->. simpl. repeat f_equal; lia. }
  destruct (String.eqb_spec (Js.toLowerCase (name r)) "oxygen isotopes") as [->|H6].
  { simpl. repeat split; try lia. intros he n o hy ->. simpl. repeat f_equal; lia. }
  destruct (String.eqb_spec (Js.toLowerCase (name r)) "hydrogen isotopes") as [_|H7].
  { simpl. repeat split; try lia. intros he n o hy ->. simpl. repeat f_equal; lia. }
  repeat split; try lia. intros he n o hy ->. repeat f_equal; lia.
Qed.

Lemma demand_cons n r rest : demand n (r :: rest) = demand n [r] + demand n rest.
Proof. unfold demand. simpl. destruct (String.eqb _ n); lia. Qed.

(** The needs [computeIceEquivalents] works from are the quantities of the
    rows named after the seven ice products, whatever their letter case;
    rows with other names count for nothing. *)
Theorem iceNeed_sums_by_name rawTotals :
  iceNeed rawTotals
  = {| needHeavyWater := demand "heavy water" rawTotals;
       needLiquidOzone := demand "liquid ozone" rawTotals;
       needStrontium := demand "strontium clathrates" rawTotals;
       needIsotopes :=
         [ ("Helium Isotopes"%string, demand "helium isotopes" rawTotals);
           ("Nitrogen Isotopes"%string, demand "nitrogen isotopes" rawTotals);
           ("Oxygen Isotopes"%string, demand "oxygen isotopes" rawTotals);
           ("Hydrogen Isotopes"%string, demand "hydrogen isotopes" rawTotals) ] |}.
Proof.
  unfold iceNeed.
  assert (Hgen : forall hw lo sr he n o hy,
             fold_left addNeed rawTotals
               {| needHeavyWater := hw; needLiquidOzone := lo; needStrontium := sr;
                  needIsotopes :=
                    [ ("Helium Isotopes"%string, he); ("Nitrogen Isotopes"%string, n);
                      ("Oxygen Isotopes"%string, o); ("Hydrogen Isotopes"%string, hy) ] |}
             = {| needHeavyWater := hw + demand "heavy water" rawTotals;
                  needLiquidOzone := lo + demand "liquid ozone" rawTotals;
                  needStrontium := sr + demand "strontium clathrates" rawTotals;
                  needIsotopes :=
                    [ ("Helium Isotopes"%string, he + demand "helium isotopes" rawTotals);
                      ("Nitrogen Isotopes"%string, n + demand "nitrogen isotopes" rawTotals);
                      ("Oxygen Isotopes"%string, o + demand "oxygen isotopes" rawTotals);
                      ("Hydrogen Isotopes"%string, hy + demand "hydrogen isotopes" rawTotals) ] |}).
  { induction rawTotals as [|r rest IH]; intros hw lo sr he n o hy.
    - simpl. repeat f_equal; lia.
    - cbn [fold_left].
      set (need0 := {| needHeavyWater := hw; needLiquidOzone := lo;
                       needStrontium := sr;
                       needIsotopes :=
                         [ ("Helium Isotopes"%string, he); ("Nitrogen Isotopes"%string, n);
                           ("Oxygen Isotopes"%string, o); ("Hydrogen Isotopes"%string, hy) ] |}).
      destruct (addNeed_sums need0 r) as [Hhw [Hlo [Hsr Hiso]]].
      specialize (Hiso he n o hy eq_refl).
      destruct (addNeed need0 r) as [hw' lo' sr' iso'] eqn:Hadd.
      cbn [needHeavyWater needLiquidOzone needStrontium needIsotopes] in *.
      subst hw' lo' sr' iso'. rewrite IH.
      rewrite !(demand_cons _ r rest). unfold need0.
      cbn [needHeavyWater needLiquidOzone needStrontium].
      now rewrite !Z.add_assoc. }
  apply Hgen.
Qed.

Lemma toLowerCase_app a b :
  Js.toLowerCase (String.append a b)
  = String.append (Js.toLowerCase a) (Js.toLowerCase b).
Proof.
  induction a as [|c a IH]; [reflexivity|].
  change (String (Js.lower_ascii c) (Js.toLowerCase (String.append a b))
          = String (Js.lower_ascii c)
              (String.append (Js.toLowerCase a) (Js.toLowerCase b))).
  now rewrite IH.
Qed.

Lemma includes_app_l a b sub :
  Js.includes b sub = true -> Js.includes (String.append a b) sub = true.
Proof.
  intros Hb. induction a as [|c a IH]; [exact Hb|].
  change (String.prefix sub (String c (String.append a b))
          || Js.includes (String.append a b) sub = true)%bool.
  rewrite IH. apply orb_true_r.
Qed.

(** Every name [loadStaticData] builds for a booster is one that
    [shouldExpandMaterial] expands below the depth limit, whatever the
    families and tiers read from [boosters.json] are: a booster named on a
    line of another recipe is always walked into. *)
Theorem booster_names_are_expanded families tiers item depth maxDepth :
  item ∈ boosterItems families tiers ->
  depth < maxDepth ->
  shouldExpandMaterial (b_name item) depth maxDepth = true.
Proof.
  intros Hin Hd. unfold boosterItems in Hin.
  apply list_elem_of_In, in_flat_map in Hin.
  destruct Hin as (fam & _ & Hin).
  apply in_map_iff in Hin. destruct Hin as (t & <- & _).
  rewrite shouldExpand_qualifies.
  replace (depth <? maxDepth) with true by (symmetry; apply Z.ltb_lt; lia).
  unfold qualifies, boosterItem. cbn [b_name andb].
  rewrite !toLowerCase_app.
  rewrite includes_app_l; [reflexivity|].
  rewrite includes_app_l; [reflexivity|].
  rewrite includes_app_l; [reflexivity|].
  reflexivity.
Qed.

Lemma booster_names_are_expanded_witness :
  shouldExpandMaterial "Pure Strong Crash Booster" 0 2 = true.
Proof.
  apply (booster_names_are_expanded None None
           (boosterItem {| family := "Crash"; familyShade := "golden" |}
              {| tierKey := "pure_strong"; tierName := "";
                 tierLabel := "Pure Strong"; tierPrefix := "Pure Strong";
                 tierIsPure := true |}) 0 2).
  - apply (list_elem_of_lookup_2 _ 63%nat). reflexivity.
  - lia.
Defined.
